(** * sreality-tracker: change detection and stored history

    A shallow embedding of [src/sreality_scraper.py], in five parts:
    - the detection pass of [check_and_notify] on values ([detect]);
    - the same pass on objects ([detect_obj]), where a listing dictionary
      has an identity and [prop.copy()] makes a new one;
    - the JSON text that [json.dump] writes and [json.load] reads;
    - the two data files, [load_previous_data], [load_history],
      [save_data], [save_history], and a cycle of [check_and_notify],
      in which the four report writers are given by the files they
      write and by how they end;
    - [format_price], [fetch_properties], [download_image] and
      [upload_to_github], each against what it meets outside the
      program.

    Python dictionaries that are used as maps are [gmap]s keyed by
    strings, Python integers are [Z], the listing dictionaries built by
    [fetch_properties] are records.  A Python string is the string of
    the bytes of its UTF-8 form, a text file is the text it holds.

    A [gmap] does not remember insertion order, so a loop over
    [d.items()] is a fold over [map_to_list d]: the order in which the
    model visits the entries is a fixed enumeration of the keys, not
    Python's insertion order.  Every statement below is about membership,
    lengths and per-key contents, none about the position of an entry in
    [new_properties], [price_changes] or [removed_properties].  The text
    of a saved file lists its entries in the same enumeration; what it
    loads as and how long it is do not depend on it. *)

From Stdlib Require Import ZArith Ascii String DecimalString DecimalFacts
  DecimalPos DecimalZ.
From stdpp Require Import gmap strings list fin_maps.

Local Open Scope string_scope.
Local Open Scope list_scope.

(** ** Data model *)

(** [item.get('usable_area', 'N/A')]: a number from the API or the
    placeholder text. *)
Inductive scalar :=
  | SInt (z : Z)
  | SStr (s : string).

#[global] Instance scalar_eq_dec : EqDecision scalar.
Proof. solve_decision. Defined.

(** The dictionary stored in [all_properties[prop_id]]
    (fetch_properties, the literal with the nine keys). *)
Record Listing := mkListing {
  id : string;
  name : string;
  price : Z;
  locality : string;
  url : string;
  area : scalar;
  image_url : option string;
  description : string;
  last_updated : string
}.

#[global] Instance Listing_eq_dec : EqDecision Listing.
Proof. solve_decision. Defined.

(** [{**prop, 'old_price': old_price, 'price_diff': price_diff}] *)
Record PriceChange := mkPriceChange {
  pc_prop : Listing;
  old_price : Z;
  price_diff : Z
}.

#[global] Instance PriceChange_eq_dec : EqDecision PriceChange.
Proof. solve_decision. Defined.

(** [current_data], [previous_data]: id -> listing. *)
Abbreviation Snapshot := (gmap string Listing).
(** [history]: id -> list of listings, oldest first. *)
Abbreviation History := (gmap string (list Listing)).

(** ** The detection pass of [check_and_notify], on values *)

(** [prop.copy()]: a new dictionary with the same items.  On values the
    copy is the listing itself; the object-level model below keeps the two
    dictionaries apart. *)
Definition copy (prop : Listing) : Listing := prop.

(** The three local lists of [check_and_notify]. *)
Record Diff := mkDiff {
  new_properties : list Listing;
  price_changes : list PriceChange;
  removed_properties : list Listing
}.

(** [if prop_id not in history: history[prop_id] = []]
    [history[prop_id].append(prop.copy())] *)
Definition history_append (history : History) (prop_id : string)
    (prop : Listing) : History :=
  let history :=
    match history !! prop_id with
    | None => <[prop_id := []]> history
    | Some _ => history
    end in
  alter (λ snapshots, snapshots ++ [copy prop]) prop_id history.

(** State of the first loop: the history and the two alert lists. *)
Record LoopState := mkLoop {
  ls_history : History;
  ls_new : list Listing;
  ls_changes : list PriceChange
}.

(** One iteration of [for prop_id, prop in current_data.items()]. *)
Definition detect_step (previous_data : Snapshot) (st : LoopState)
    (entry : string * Listing) : LoopState :=
  let '(prop_id, prop) := entry in
  let history := history_append (ls_history st) prop_id prop in
  match previous_data !! prop_id with
  | None =>
      mkLoop history (ls_new st ++ [prop]) (ls_changes st)
  | Some old =>
      if decide (price old ≠ price prop) then
        let old_price := price old in
        let price_diff := (price prop - old_price)%Z in
        mkLoop history (ls_new st)
               (ls_changes st ++ [mkPriceChange prop old_price price_diff])
      else
        mkLoop history (ls_new st) (ls_changes st)
  end.

(** One iteration of [for prop_id, prop in previous_data.items()]. *)
Definition removed_step (current_data : Snapshot) (removed : list Listing)
    (entry : string * Listing) : list Listing :=
  let '(prop_id, prop) := entry in
  match current_data !! prop_id with
  | None => removed ++ [prop]
  | Some _ => removed
  end.

(** Both loops: the classified lists and the history after the appends. *)
Definition detect (previous_data current_data : Snapshot) (history : History)
    : Diff * History :=
  let st := foldl (detect_step previous_data) (mkLoop history [] [])
                  (map_to_list current_data) in
  let removed := foldl (removed_step current_data) []
                       (map_to_list previous_data) in
  (mkDiff (ls_new st) (ls_changes st) removed, ls_history st).

(** The ids carried by the three lists. *)
Definition new_ids (d : Diff) : gset string :=
  list_to_set (id <$> new_properties d).
Definition changed_ids (d : Diff) : gset string :=
  list_to_set ((id ∘ pc_prop) <$> price_changes d).
Definition removed_ids (d : Diff) : gset string :=
  list_to_set (id <$> removed_properties d).

(** [all_properties[prop_id] = {'id': prop_id, ...}]: every listing is
    stored under its own id. *)
Definition keyed_by_id (data : Snapshot) : Prop :=
  map_Forall (λ prop_id prop, id prop = prop_id) data.

#[global] Instance keyed_by_id_dec data : Decision (keyed_by_id data).
Proof. unfold keyed_by_id. apply _. Defined.

(** The entry one iteration adds to [price_changes], if any. *)
Definition change_of (previous_data : Snapshot) (entry : string * Listing)
    : option PriceChange :=
  match previous_data !! entry.1 with
  | Some old =>
      if decide (price old ≠ price entry.2)
      then Some (mkPriceChange entry.2 (price old)
                               (price entry.2 - price old))
      else None
  | None => None
  end.

(** An entry for which neither [if prop_id not in previous_data] nor the
    [elif] on the prices fires: nothing is emitted for it. *)
Definition falls_through (previous_data : Snapshot)
    (entry : string * Listing) : Prop :=
  match previous_data !! entry.1 with
  | Some old => price old = price entry.2
  | None => False
  end.

#[global] Instance falls_through_dec previous_data entry :
  Decision (falls_through previous_data entry).
Proof. unfold falls_through. destruct (previous_data !! entry.1); apply _. Defined.

(** The ids the pass leaves unmentioned: in both snapshots, same price. *)
Definition unchanged_ids (previous_data current_data : Snapshot)
    : gset string :=
  dom (filter (falls_through previous_data) current_data).

(** ** The detection pass on objects *)

(** A listing is a Python dictionary, an object: a change made through
    one reference shows through every other reference to the same
    dictionary.  The store holds the items of each listing dictionary
    under the identity of the dictionary; [current_data] and the lists of
    [history] hold identities. *)
Abbreviation Store := (gmap nat Listing).

(** A new dictionary with the given items: its identity is one no
    dictionary of the store has. *)
Definition new_dict (store : Store) (items : Listing) : nat * Store :=
  let r := fresh (dom store) in (r, <[r := items]> store).


Record ObjState := mkObj {
  os_store : Store;
  os_history : gmap string (list nat);
  os_new : list nat;
  os_changes : list PriceChange
}.

(** One iteration of the first loop.  [prop.copy()] makes a new
    dictionary, [new_properties.append(prop)] appends [prop] itself, and
    [{**prop, ...}] is a new dictionary that only [price_changes] refers
    to, kept here by its items.  Every reference of [current_data] has a
    dictionary; for one without, the iteration does nothing. *)
Definition detect_step_obj (previous_data : Snapshot) (st : ObjState)
    (entry : string * nat) : ObjState :=
  let '(prop_id, prop) := entry in
  match os_store st !! prop with
  | None => st
  | Some items =>
      let history :=
        match os_history st !! prop_id with
        | None => <[prop_id := []]> (os_history st)
        | Some _ => os_history st
        end in
      let '(copied, store) := new_dict (os_store st) items in
      let history :=
        alter (λ snapshots, snapshots ++ [copied]) prop_id history in
      match previous_data !! prop_id with
      | None => mkObj store history (os_new st ++ [prop]) (os_changes st)
      | Some old =>
          if decide (price old ≠ price items) then
            let old_price := price old in
            let price_diff := (price items - old_price)%Z in
            mkObj store history (os_new st)
                  (os_changes st ++ [mkPriceChange items old_price price_diff])
          else mkObj store history (os_new st) (os_changes st)
      end
  end.

(** The first loop of [check_and_notify] on objects. *)
Definition detect_obj (previous_data : Snapshot)
    (current_data : gmap string nat) (store : Store)
    (history : gmap string (list nat)) : ObjState :=
  foldl (detect_step_obj previous_data) (mkObj store history [] [])
        (map_to_list current_data).

(** ** Exceptions *)

Inductive Exn :=
  | FileNotFoundError
  | JSONDecodeError
  | RecursionError
  | OSError
  | ValueError
  | Unmodelled.

#[global] Instance Exn_eq_dec : EqDecision Exn.
Proof. solve_decision. Defined.

(** A computation that returns a value or raises. *)
Inductive result (A : Type) :=
  | Ok (a : A)
  | Raise (e : Exn).
Arguments Ok {A} a.
Arguments Raise {A} e.

#[global] Instance result_ret : MRet result := @Ok.
#[global] Instance result_bind : MBind result := λ A B f m,
  match m with
  | Ok a => f a
  | Raise e => Raise e
  end.

(** ** JSON text, as [json.dump] and [json.load] treat it

    The values are those the data files hold: [None], booleans, integers,
    strings, lists and dictionaries with string keys.  Floats are not
    among them. *)

#[local] Unset Elimination Schemes.
Inductive json :=
  | JNull
  | JBool (b : bool)
  | JInt (z : Z)
  | JStr (s : string)
  | JList (items : list json)
  | JObj (pairs : list (string * json)).
#[local] Set Elimination Schemes.

Definition quote : ascii := "034"%char.
Definition backslash : ascii := "\"%char.

Definition hex_char (n : N) : ascii :=
  match n with
  | 0 => "0" | 1 => "1" | 2 => "2" | 3 => "3" | 4 => "4" | 5 => "5"
  | 6 => "6" | 7 => "7" | 8 => "8" | 9 => "9" | 10 => "a" | 11 => "b"
  | 12 => "c" | 13 => "d" | 14 => "e" | _ => "f"
  end%N%char.

(** [ESCAPE_DCT] of [json.encoder]: the replacement of a character that
    [ESCAPE] matches, the character itself otherwise. *)
Definition escape_char (c : ascii) : string :=
  if Ascii.eqb c backslash then "\\"
  else if Ascii.eqb c quote then String backslash (String quote "")
  else if Ascii.eqb c "008" then "\b"
  else if Ascii.eqb c "012" then "\f"
  else if Ascii.eqb c "010" then "\n"
  else if Ascii.eqb c "013" then "\r"
  else if Ascii.eqb c "009" then "\t"
  else if (N_of_ascii c <? 32)%N then
    "\u00" +:+ String (hex_char (N_of_ascii c / 16))
                      (String (hex_char (N_of_ascii c mod 16)) "")
  else String c "".

Fixpoint escape (s : string) : string :=
  match s with
  | "" => ""
  | String c s => escape_char c +:+ escape s
  end.

(** [encode_basestring], the string encoder under [ensure_ascii=False]. *)
Definition encode_basestring (s : string) : string :=
  String quote (escape s +:+ String quote "").

(** [int.__repr__] *)
Definition intstr (z : Z) : string := NilZero.string_of_int (Z.to_int z).

Fixpoint spaces (n : nat) : string :=
  match n with
  | O => ""
  | S n => String " " (spaces n)
  end.

(** ['\n' + _indent * _current_indent_level], with [indent=2]. *)
Definition newline_indent (level : nat) : string :=
  String "010" (spaces (2 * level)).

(** [_iterencode] of [json.encoder] for [indent=2] (so the item separator
    is [','] and the key separator [': ']), the chunks concatenated. *)
Fixpoint iterencode (level : nat) (o : json) : string :=
  match o with
  | JNull => "null"
  | JBool true => "true"
  | JBool false => "false"
  | JInt z => intstr z
  | JStr s => encode_basestring s
  | JList [] => "[]"
  | JList (first :: items) =>
      "[" +:+ newline_indent (S level) +:+ iterencode (S level) first +:+
      (fix rest (items : list json) : string :=
         match items with
         | [] => ""
         | value :: items =>
             "," +:+ newline_indent (S level) +:+
             iterencode (S level) value +:+ rest items
         end) items +:+
      newline_indent level +:+ "]"
  | JObj [] => "{}"
  | JObj ((key, first) :: pairs) =>
      "{" +:+ newline_indent (S level) +:+
      encode_basestring key +:+ ": " +:+ iterencode (S level) first +:+
      (fix rest (pairs : list (string * json)) : string :=
         match pairs with
         | [] => ""
         | (key, value) :: pairs =>
             "," +:+ newline_indent (S level) +:+
             encode_basestring key +:+ ": " +:+
             iterencode (S level) value +:+ rest pairs
         end) pairs +:+
      newline_indent level +:+ "}"
  end.

(** The items of a list behind the first one, as [iterencode] writes
    them. *)
Fixpoint iterencode_values (level : nat) (items : list json) : string :=
  match items with
  | [] => ""
  | value :: items =>
      "," +:+ newline_indent (S level) +:+
      iterencode (S level) value +:+ iterencode_values level items
  end.

(** The items of a dictionary behind the first one, as [iterencode]
    writes them. *)
Fixpoint iterencode_pairs (level : nat) (pairs : list (string * json))
    : string :=
  match pairs with
  | [] => ""
  | (key, value) :: pairs =>
      "," +:+ newline_indent (S level) +:+
      encode_basestring key +:+ ": " +:+
      iterencode (S level) value +:+ iterencode_pairs level pairs
  end.

(** The calls a text of this value costs the scanner. *)
Fixpoint scan_cost (o : json) : nat :=
  match o with
  | JList items => S (foldr (λ value n, S (scan_cost value + n)) 0 items)
  | JObj pairs => S (foldr (λ kv n, S (scan_cost kv.2 + n)) 0 pairs)
  | _ => 1
  end.

(** [json.dumps(obj, ensure_ascii=False, indent=2)] *)
Definition dumps (o : json) : string := iterencode 0 o.


(** [WHITESPACE_STR = ' \t\n\r'] *)
Definition is_ws (c : ascii) : bool :=
  Ascii.eqb c " " || Ascii.eqb c "009" || Ascii.eqb c "010" ||
  Ascii.eqb c "013".

(** [WHITESPACE.match(s, end).end()] *)
Fixpoint skip_ws (s : string) : string :=
  match s with
  | String c s' => if is_ws c then skip_ws s' else s
  | "" => ""
  end.

(** [s[idx:idx + len(word)] == word], with what follows the word. *)
Fixpoint strip_prefix (word s : string) : option string :=
  match word, s with
  | "", _ => Some s
  | String a word, String b s =>
      if Ascii.eqb a b then strip_prefix word s else None
  | String _ _, "" => None
  end.

Definition hex_value (c : ascii) : option N :=
  let n := N_of_ascii c in
  if (48 <=? n)%N && (n <=? 57)%N then Some (n - 48)%N
  else if (97 <=? n)%N && (n <=? 102)%N then Some (n - 87)%N
  else if (65 <=? n)%N && (n <=? 70)%N then Some (n - 55)%N
  else None.

(** [_decode_uXXXX]: the value of four hexadecimal digits. *)
Definition decode_uXXXX (h1 h2 h3 h4 : ascii) : option N :=
  a ← hex_value h1; b ← hex_value h2; c ← hex_value h3; d ← hex_value h4;
  Some (((a * 16 + b) * 16 + c) * 16 + d)%N.

(** [chr(uni)], as the UTF-8 text that stands for a Python string here
    ([uni] is not a surrogate). *)
Definition chr (uni : N) : string :=
  if (uni <? 128)%N then String (ascii_of_N uni) ""
  else if (uni <? 2048)%N then
    String (ascii_of_N (192 + uni / 64))
      (String (ascii_of_N (128 + uni mod 64)) "")
  else if (uni <? 65536)%N then
    String (ascii_of_N (224 + uni / 4096))
      (String (ascii_of_N (128 + (uni / 64) mod 64))
         (String (ascii_of_N (128 + uni mod 64)) ""))
  else
    String (ascii_of_N (240 + uni / 262144))
      (String (ascii_of_N (128 + (uni / 4096) mod 64))
         (String (ascii_of_N (128 + (uni / 64) mod 64))
            (String (ascii_of_N (128 + uni mod 64)) ""))).

(** [BACKSLASH] of [json.decoder]. *)
Definition BACKSLASH (esc : ascii) : option ascii :=
  if Ascii.eqb esc quote then Some quote
  else if Ascii.eqb esc backslash then Some backslash
  else if Ascii.eqb esc "/" then Some "/"%char
  else if Ascii.eqb esc "b" then Some "008"%char
  else if Ascii.eqb esc "f" then Some "012"%char
  else if Ascii.eqb esc "n" then Some "010"%char
  else if Ascii.eqb esc "r" then Some "013"%char
  else if Ascii.eqb esc "t" then Some "009"%char
  else None.

Definition is_high_surrogate (uni : N) : bool :=
  (55296 <=? uni)%N && (uni <=? 56319)%N.
Definition is_low_surrogate (uni : N) : bool :=
  (56320 <=? uni)%N && (uni <=? 57343)%N.

(** [scanstring(s, end, strict=True)], [s] being the text behind the
    opening quote: the decoded string and the text behind the closing
    quote.  An escape that leaves a lone surrogate in the Python string
    has no UTF-8 form and is reported as [Unmodelled]. *)
Fixpoint scanstring (s : string) : result (string * string) :=
  match s with
  | "" => Raise JSONDecodeError
  | String c s1 =>
      if Ascii.eqb c quote then Ok ("", s1)
      else if Ascii.eqb c backslash then
        match s1 with
        | "" => Raise JSONDecodeError
        | String esc s2 =>
            if Ascii.eqb esc "u" then
              match s2 with
              | String h1 (String h2 (String h3 (String h4 s3))) =>
                  match decode_uXXXX h1 h2 h3 h4 with
                  | None => Raise JSONDecodeError
                  | Some uni =>
                      if is_high_surrogate uni then
                        match s3 with
                        | String b (String u s3') =>
                            if Ascii.eqb b backslash && Ascii.eqb u "u" then
                              match s3' with
                              | String g1 (String g2 (String g3
                                  (String g4 s4))) =>
                                  match decode_uXXXX g1 g2 g3 g4 with
                                  | None => Raise JSONDecodeError
                                  | Some uni2 =>
                                      if is_low_surrogate uni2 then
                                        '(str, rest) ← scanstring s4;
                                        Ok (chr (65536 + (uni - 55296) * 1024
                                                 + (uni2 - 56320))
                                            +:+ str, rest)
                                      else Raise Unmodelled
                                  end
                              | _ => Raise JSONDecodeError
                              end
                            else Raise Unmodelled
                        | _ => Raise Unmodelled
                        end
                      else if is_low_surrogate uni then Raise Unmodelled
                      else
                        '(str, rest) ← scanstring s3;
                        Ok (chr uni +:+ str, rest)
                  end
              | _ => Raise JSONDecodeError
              end
            else
              match BACKSLASH esc with
              | Some char =>
                  '(str, rest) ← scanstring s2; Ok (String char str, rest)
              | None => Raise JSONDecodeError
              end
        end
      else if (N_of_ascii c <? 32)%N then Raise JSONDecodeError
      else '(str, rest) ← scanstring s1; Ok (String c str, rest)
  end.

Definition is_digit (c : ascii) : bool :=
  (48 <=? N_of_ascii c)%N && (N_of_ascii c <=? 57)%N.

(** [\d*]: the digits in front and what follows them. *)
Fixpoint digits (s : string) : string * string :=
  match s with
  | String c s' =>
      if is_digit c then let '(ds, rest) := digits s' in (String c ds, rest)
      else ("", s)
  | "" => ("", "")
  end.

(** The unsigned part of the first group of [NUMBER_RE]: either [0], or
    a digit from 1 to 9 with any digits behind it; and the text that
    follows. *)
Definition match_digits (s : string) : option (string * string) :=
  match s with
  | String c s' =>
      if Ascii.eqb c "0" then Some ("0", s')
      else if is_digit c then
        let '(ds, rest) := digits s' in Some (String c ds, rest)
      else None
  | "" => None
  end.

(** The first group of [NUMBER_RE]: an optional minus sign, then
    [match_digits]. *)
Definition match_integer (s : string) : option (string * string) :=
  match s with
  | String c s' =>
      if Ascii.eqb c "-" then
        '(ds, rest) ← match_digits s'; Some (String "-" ds, rest)
      else match_digits s
  | "" => None
  end.

(** Whether the second group [(\.\d+)?] of [NUMBER_RE] matches. *)
Definition has_frac (s : string) : bool :=
  match s with
  | String c (String d _) => Ascii.eqb c "." && is_digit d
  | _ => false
  end.

(** Whether the third group [([eE][-+]?\d+)?] of [NUMBER_RE] matches. *)
Definition has_exp (s : string) : bool :=
  match s with
  | String e (String c s') =>
      (Ascii.eqb e "e" || Ascii.eqb e "E") &&
      (is_digit c ||
       ((Ascii.eqb c "-" || Ascii.eqb c "+") &&
        match s' with String d _ => is_digit d | "" => false end))
  | _ => false
  end.

(** The number branch of [_scan_once] and the float literals behind
    it.  A number with a fraction or an exponent, [NaN] and the
    infinities are floats, reported as [Unmodelled]. *)
Definition scan_number (s : string) : result (json * string) :=
  match match_integer s with
  | Some (integer, rest) =>
      if has_frac rest || has_exp rest then Raise Unmodelled
      else
        match NilZero.int_of_string integer with
        | Some d => Ok (JInt (Z.of_int d), rest)
        | None => Raise JSONDecodeError
        end
  | None =>
      match strip_prefix "NaN" s, strip_prefix "Infinity" s,
            strip_prefix "-Infinity" s with
      | None, None, None => Raise JSONDecodeError
      | _, _, _ => Raise Unmodelled
      end
  end.

(** The branches of [_scan_once] for a value that is neither a string,
    nor an object, nor an array: the three literals, then the numbers. *)
Definition scan_atom (s : string) : result (json * string) :=
  match strip_prefix "null" s, strip_prefix "true" s,
        strip_prefix "false" s with
  | Some rest, _, _ => Ok (JNull, rest)
  | _, Some rest, _ => Ok (JBool true, rest)
  | _, _, Some rest => Ok (JBool false, rest)
  | None, None, None => scan_number s
  end.

(** The scanner of [json.scanner] with [JSONObject] and [JSONArray] of
    [json.decoder]: the value at the start of [s] and the text behind it.
    Every call takes one unit of [fuel], and a scan that runs out of it
    ends in [RecursionError]; [loads] below supplies more than a text of
    its length can use.  The depth at which Python itself gives up is not
    modelled. *)
Fixpoint scan_once (fuel : nat) (s : string) : result (json * string) :=
  match fuel with
  | O => Raise RecursionError
  | S fuel =>
      match s with
      | "" => Raise JSONDecodeError
      | String nextchar s' =>
          if Ascii.eqb nextchar quote then
            '(str, rest) ← scanstring s'; Ok (JStr str, rest)
          else if Ascii.eqb nextchar "{" then
            match skip_ws s' with
            | String c s'' =>
                if Ascii.eqb c "}" then Ok (JObj [], s'')
                else if Ascii.eqb c quote then
                  '(pairs, rest) ← object_items fuel s'';
                  Ok (JObj pairs, rest)
                else Raise JSONDecodeError
            | "" => Raise JSONDecodeError
            end
          else if Ascii.eqb nextchar "[" then
            match skip_ws s' with
            | String c s'' =>
                if Ascii.eqb c "]" then Ok (JList [], s'')
                else
                  '(values, rest) ← array_items fuel (String c s'');
                  Ok (JList values, rest)
            | "" => Raise JSONDecodeError
            end
          else scan_atom s
      end
  end

(** The [while True] loop of [JSONArray]; [s] starts with a value. *)
with array_items (fuel : nat) (s : string) : result (list json * string) :=
  match fuel with
  | O => Raise RecursionError
  | S fuel =>
      '(value, s) ← scan_once fuel s;
      match skip_ws s with
      | String nextchar s' =>
          if Ascii.eqb nextchar "]" then Ok ([value], s')
          else if Ascii.eqb nextchar "," then
            '(values, rest) ← array_items fuel (skip_ws s');
            Ok (value :: values, rest)
          else Raise JSONDecodeError
      | "" => Raise JSONDecodeError
      end
  end

(** The [while True] loop of [JSONObject]; [s] is the text behind the
    opening quote of a key. *)
with object_items (fuel : nat) (s : string)
    : result (list (string * json) * string) :=
  match fuel with
  | O => Raise RecursionError
  | S fuel =>
      '(key, s) ← scanstring s;
      match skip_ws s with
      | String colon s' =>
          if Ascii.eqb colon ":" then
            '(value, s) ← scan_once fuel (skip_ws s');
            match skip_ws s with
            | String nextchar s' =>
                if Ascii.eqb nextchar "}" then Ok ([(key, value)], s')
                else if Ascii.eqb nextchar "," then
                  match skip_ws s' with
                  | String q s'' =>
                      if Ascii.eqb q quote then
                        '(pairs, rest) ← object_items fuel s'';
                        Ok ((key, value) :: pairs, rest)
                      else Raise JSONDecodeError
                  | "" => Raise JSONDecodeError
                  end
                else Raise JSONDecodeError
            | "" => Raise JSONDecodeError
            end
          else Raise JSONDecodeError
      | "" => Raise JSONDecodeError
      end
  end.

(** [json.loads(s)]: [JSONDecoder.decode], which wants nothing but
    whitespace around the value.  [dict(pairs)] is taken where the pairs
    are read as a dictionary. *)
Definition loads (s : string) : result json :=
  '(obj, rest) ← scan_once (S (2 * String.length s)) (skip_ws s);
  match skip_ws rest with
  | "" => Ok obj
  | String _ _ => Raise JSONDecodeError
  end.

(** ** Listings as JSON *)

(** [dict(pairs)]: a later pair replaces an earlier one with the same
    key. *)
Definition dict {A} (pairs : list (string * A)) : gmap string A :=
  list_to_map (reverse pairs).

Definition scalar_to_json (a : scalar) : json :=
  match a with
  | SInt z => JInt z
  | SStr s => JStr s
  end.

(** The nine keys, in the order of the literal in [fetch_properties]. *)
Definition listing_to_json (prop : Listing) : json :=
  JObj [ ("id", JStr (id prop));
         ("name", JStr (name prop));
         ("price", JInt (price prop));
         ("locality", JStr (locality prop));
         ("url", JStr (url prop));
         ("area", scalar_to_json (area prop));
         ("image_url", from_option JStr JNull (image_url prop));
         ("description", JStr (description prop));
         ("last_updated", JStr (last_updated prop)) ].

Definition snapshot_to_json (data : Snapshot) : json :=
  JObj (map_to_list (listing_to_json <$> data)).

Definition history_to_json (history : History) : json :=
  JObj (map_to_list
          ((λ snapshots, JList (listing_to_json <$> snapshots)) <$> history)).

(** Reading a loaded value as the data it stands for.  Python hands the
    loaded dictionaries on as they are; a value that is not of the shape
    [fetch_properties] produces has no counterpart in the data model and
    is reported as [Unmodelled]. *)
Definition field (fields : gmap string json) (key : string) : result json :=
  match fields !! key with
  | Some o => Ok o
  | None => Raise Unmodelled
  end.

Definition as_str (o : json) : result string :=
  match o with JStr s => Ok s | _ => Raise Unmodelled end.

Definition as_int (o : json) : result Z :=
  match o with JInt z => Ok z | _ => Raise Unmodelled end.

Definition as_scalar (o : json) : result scalar :=
  match o with
  | JInt z => Ok (SInt z)
  | JStr s => Ok (SStr s)
  | _ => Raise Unmodelled
  end.

Definition as_optional_str (o : json) : result (option string) :=
  match o with
  | JNull => Ok None
  | JStr s => Ok (Some s)
  | _ => Raise Unmodelled
  end.

Definition json_to_listing (o : json) : result Listing :=
  match o with
  | JObj pairs =>
      let fields := dict pairs in
      if decide (size fields = 9) then
        i ← field fields "id" ≫= as_str;
        n ← field fields "name" ≫= as_str;
        p ← field fields "price" ≫= as_int;
        l ← field fields "locality" ≫= as_str;
        u ← field fields "url" ≫= as_str;
        a ← field fields "area" ≫= as_scalar;
        img ← field fields "image_url" ≫= as_optional_str;
        d ← field fields "description" ≫= as_str;
        t ← field fields "last_updated" ≫= as_str;
        Ok (mkListing i n p l u a img d t)
      else Raise Unmodelled
  | _ => Raise Unmodelled
  end.

Definition json_to_timeline (o : json) : result (list Listing) :=
  match o with
  | JList items => mapM json_to_listing items
  | _ => Raise Unmodelled
  end.

Definition is_Ok {A} (r : result A) : Prop :=
  match r with Ok _ => True | Raise _ => False end.

#[global] Instance is_Ok_dec {A} (r : result A) : Decision (is_Ok r).
Proof. destruct r; apply _. Defined.

Definition to_option {A} (r : result A) : option A :=
  match r with Ok a => Some a | Raise _ => None end.

(** Every value of a dictionary read through [f]. *)
Definition read_values {A} (f : json → result A) (fields : gmap string json)
    : result (gmap string A) :=
  if decide (map_Forall (λ _ o, is_Ok (f o)) fields)
  then Ok (omap (to_option ∘ f) fields)
  else Raise Unmodelled.

Definition json_to_snapshot (o : json) : result Snapshot :=
  match o with
  | JObj pairs => read_values json_to_listing (dict pairs)
  | _ => Raise Unmodelled
  end.

Definition json_to_history (o : json) : result History :=
  match o with
  | JObj pairs => read_values json_to_timeline (dict pairs)
  | _ => Raise Unmodelled
  end.

(** ** The two data files *)

(** The text files by path: what [open(path, 'r').read()] returns. *)
Abbreviation FileSystem := (gmap string string).

(** [self.data_file], [self.history_file] *)
Definition data_file : string := "sreality_data.json".
Definition history_file : string := "sreality_history.json".

(** [with open(path, 'r', encoding='utf-8') as f: f.read()] *)
Definition read_text (fs : FileSystem) (path : string) : result string :=
  match fs !! path with
  | Some text => Ok text
  | None => Raise FileNotFoundError
  end.

(** [load_previous_data]: [json.load] of the file inside a [try] whose
    [except FileNotFoundError] returns [{}].  [Raise Unmodelled] is a file
    that [json.load] reads but whose value is not a dictionary of listings
    as [fetch_properties] builds them: the code goes on with the loaded
    value, and this development does not follow it there. *)
Definition load_previous_data (fs : FileSystem) : result Snapshot :=
  let loaded : result Snapshot :=
    text ← read_text fs data_file; o ← loads text; json_to_snapshot o in
  match loaded with
  | Raise FileNotFoundError => Ok ∅
  | _ => loaded
  end.

(** [load_history], with [Raise Unmodelled] as for [load_previous_data]. *)
Definition load_history (fs : FileSystem) : result History :=
  let loaded : result History :=
    text ← read_text fs history_file; o ← loads text; json_to_history o in
  match loaded with
  | Raise FileNotFoundError => Ok ∅
  | _ => loaded
  end.

(** [with open(path, 'w', encoding='utf-8') as f: json.dump(o, f, ...)].
    Opening in mode ['w'] empties the file at [path]; the text then goes
    into that same file from its start.  [room] is the number of
    characters the device still takes ([None]: as many as are written):
    when the text is longer, the characters that fit stay in the file and
    the write raises [OSError]. *)
Definition dump_to (fs : FileSystem) (path : string) (o : json)
    (room : option nat) : FileSystem * result () :=
  let text := dumps o in
  match room with
  | Some n =>
      if decide (n < String.length text)%nat
      then (<[path := substring 0 n text]> fs, Raise OSError)
      else (<[path := text]> fs, Ok ())
  | None => (<[path := text]> fs, Ok ())
  end.

(** [save_data] *)
Definition save_data (fs : FileSystem) (data : Snapshot) (room : option nat)
    : FileSystem * result () :=
  dump_to fs data_file (snapshot_to_json data) room.

(** [save_history] *)
Definition save_history (fs : FileSystem) (history : History)
    (room : option nat) : FileSystem * result () :=
  dump_to fs history_file (history_to_json history) room.

(** ** [check_and_notify] *)

(** What a call that returns has printed last: ["No data fetched"], or
    the ["Found ..."] line about the three lists it handed to the report
    writers. *)
Inductive Outcome :=
  | NoDataFetched
  | Found (d : Diff).

(** What the device does with a write, file by file: the number of
    characters it takes of a text written to the path ([None]: all). *)
Abbreviation Device := (string → option nat).

(** A device that takes every write. *)
Definition reliable : Device := λ _, None.

(** *** The report writers

    [self.alerts_file], [self.catalog_file], [self.removed_file],
    [self.history_html_file], [self.images_folder] *)
Definition alerts_file : string := "sreality_alerts.html".
Definition catalog_file : string := "sreality_all_properties.html".
Definition removed_file : string := "sreality_removed_properties.html".
Definition history_html_file : string := "sreality_property_history.html".
Definition images_folder : string := "property_images".

(** [os.path.join(self.images_folder, f"{property_id}.jpg")], with the
    separator of a POSIX system. *)
Definition image_path_of (property_id : string) : string :=
  images_folder +:+ "/" +:+ property_id +:+ ".jpg".

(** The files that [save_alerts_to_file], [save_removed_properties],
    [save_complete_catalog] and [save_property_history_html] open for
    writing: each its HTML report, and through [download_image] the image
    of a listing. *)
Inductive ReportFile :=
  | AlertsFile
  | RemovedFile
  | CatalogFile
  | HistoryHtmlFile
  | ImageFile (property_id : string).

Definition report_path (file : ReportFile) : string :=
  match file with
  | AlertsFile => alerts_file
  | RemovedFile => removed_file
  | CatalogFile => catalog_file
  | HistoryHtmlFile => history_html_file
  | ImageFile property_id => image_path_of property_id
  end.

(** What a call of a report writer has done when it ends: the texts it
    has left in files, in the order it wrote them, and its return or the
    exception it raised.  The HTML it builds, the time it stamps and the
    images it requests are not followed here: the four writers are given
    by what they do. *)
Abbreviation Report := (list (ReportFile * string) * result ())%type.

Record Writers := mkWriters {
  save_alerts_to_file :
    FileSystem → list Listing → list PriceChange → Report;
  save_removed_properties : FileSystem → list Listing → Report;
  save_complete_catalog : FileSystem → Snapshot → Report;
  save_property_history_html : FileSystem → History → Report
}.

(** The files after the writes of a report writer. *)
Definition written (fs : FileSystem) (writes : list (ReportFile * string))
    : FileSystem :=
  foldl (λ fs write, <[report_path write.1 := write.2]> fs) fs writes.

(** A call of a report writer. *)
Definition call (fs : FileSystem) (writer : FileSystem → Report)
    : FileSystem * result () :=
  (written fs (writer fs).1, (writer fs).2).

(** The four calls between the detection and the saves:
    [if new_properties or price_changes: self.save_alerts_to_file(...)],
    [if removed_properties: self.save_removed_properties(...)],
    [self.save_complete_catalog(current_data)],
    [self.save_property_history_html(history)].  An exception of one of
    them leaves the method. *)
Definition write_reports (writers : Writers) (fs : FileSystem) (d : Diff)
    (current_data : Snapshot) (history : History) : FileSystem * result () :=
  let alerts :=
    if decide (new_properties d ≠ [] ∨ price_changes d ≠ [])
    then call fs (λ fs, save_alerts_to_file writers fs (new_properties d)
                          (price_changes d))
    else (fs, Ok ()) in
  match alerts with
  | (fs, Raise e) => (fs, Raise e)
  | (fs, Ok _) =>
      let removed :=
        if decide (removed_properties d ≠ [])
        then call fs (λ fs, save_removed_properties writers fs
                              (removed_properties d))
        else (fs, Ok ()) in
      match removed with
      | (fs, Raise e) => (fs, Raise e)
      | (fs, Ok _) =>
          match call fs (λ fs, save_complete_catalog writers fs
                                 current_data) with
          | (fs, Raise e) => (fs, Raise e)
          | (fs, Ok _) =>
              call fs (λ fs, save_property_history_html writers fs history)
          end
      end
  end.

(** One cycle, [fetched] being what [fetch_properties] returned: the two
    loads, the guard, the detection, the report writers, the two saves.
    An exception leaves the method where it is raised.  The call of
    [upload_to_github] that follows the saves writes none of these files
    and, in a process whose [os.getcwd()] and whose way back succeed,
    catches what it raises and returns; it is followed on the shell it
    acts on, under its own name below. *)
Definition check_and_notify (writers : Writers) (fs : FileSystem)
    (fetched : Snapshot) (device : Device) : FileSystem * result Outcome :=
  match load_previous_data fs with
  | Raise e => (fs, Raise e)
  | Ok previous_data =>
      match load_history fs with
      | Raise e => (fs, Raise e)
      | Ok history =>
          let current_data := fetched in
          if decide (current_data = ∅) then (fs, Ok NoDataFetched)
          else
            let '(d, history) := detect previous_data current_data history in
            match write_reports writers fs d current_data history with
            | (fs, Raise e) => (fs, Raise e)
            | (fs, Ok _) =>
                match save_data fs current_data (device data_file) with
                | (fs, Raise e) => (fs, Raise e)
                | (fs, Ok _) =>
                    match save_history fs history (device history_file) with
                    | (fs, Raise e) => (fs, Raise e)
                    | (fs, Ok _) => (fs, Ok (Found d))
                    end
                end
            end
      end
  end.

(** Induction on a value with the hypothesis for every item of a list
    and every value of a dictionary. *)
Section json_ind.
Context (P : json → Prop).
Context (Hnull : P JNull) (Hbool : ∀ b, P (JBool b)) (Hint : ∀ z, P (JInt z))
        (Hstr : ∀ s, P (JStr s))
        (Hlist : ∀ items, Forall P items → P (JList items))
        (Hobj : ∀ pairs, Forall (λ kv, P kv.2) pairs → P (JObj pairs)).

Fixpoint json_ind (o : json) : P o :=
  match o with
  | JNull => Hnull
  | JBool b => Hbool b
  | JInt z => Hint z
  | JStr s => Hstr s
  | JList items =>
      Hlist items
        ((fix all (items : list json) : Forall P items :=
            match items with
            | [] => Forall_nil_2 P
            | value :: items => Forall_cons_2 P value items (json_ind value) (all items)
            end) items)
  | JObj pairs =>
      Hobj pairs
        ((fix all (pairs : list (string * json))
            : Forall (λ kv, P kv.2) pairs :=
            match pairs with
            | [] => Forall_nil_2 _
            | kv :: pairs =>
                Forall_cons_2 _ kv pairs (json_ind kv.2) (all pairs)
            end) pairs)
  end.
End json_ind.

(** The text behind a number does not carry the number on. *)
Definition ends_number (rest : string) : Prop :=
  match rest with
  | String c _ =>
      is_digit c = false ∧ c ≠ "."%char ∧ c ≠ "e"%char ∧ c ≠ "E"%char
  | "" => True
  end.

(** A text that starts with a character no whitespace skips and no list
    closes: where a value starts. *)
Definition starts_value (s : string) : Prop :=
  match s with
  | String c _ => is_ws c = false ∧ c ≠ "]"%char
  | "" => False
  end.

(** Scanning the text of [o], whatever follows it, gives [o] back and
    stops right behind the text. *)
Definition scans_back (o : json) : Prop :=
  ∀ level fuel rest,
    (scan_cost o ≤ fuel)%nat → ends_number rest →
    scan_once fuel (iterencode level o +:+ rest) = Ok (o, rest).

(** A result other than running out of fuel. *)
Definition no_overflow {A} (r : result A) : Prop :=
  match r with
  | Raise RecursionError => False
  | _ => True
  end.

(** What enough fuel gives the three scanners: no [RecursionError], and
    a result that has used up some of the text. *)
Definition fuel_suffices (fuel : nat) : Prop :=
  (∀ s, (2 * String.length s < fuel)%nat →
     no_overflow (scan_once fuel s) ∧
     ∀ o rest, scan_once fuel s = Ok (o, rest) →
               (String.length rest < String.length s)%nat) ∧
  (∀ s, (2 * String.length s + 1 < fuel)%nat →
     no_overflow (array_items fuel s) ∧
     ∀ values rest, array_items fuel s = Ok (values, rest) →
                    (String.length rest < String.length s)%nat) ∧
  (∀ s, (2 * String.length s + 1 < fuel)%nat →
     no_overflow (object_items fuel s) ∧
     ∀ pairs rest, object_items fuel s = Ok (pairs, rest) →
                   (String.length rest < String.length s)%nat).

(** ** Objects read as values *)

(** The items behind a list of references. *)
Definition items_of (store : Store) (refs : list nat) : list Listing :=
  omap (λ r, store !! r) refs.

(** [current_data] with every reference replaced by the items of its
    dictionary. *)
Definition snapshot_of (store : Store) (current_data : gmap string nat)
    : Snapshot :=
  omap (λ r, store !! r) current_data.

(** [history] with every reference replaced by the items of its
    dictionary. *)
Definition history_of (store : Store) (history : gmap string (list nat))
    : History :=
  items_of store <$> history.

(** Every reference of [current_data] and of [history] has a dictionary. *)
Definition allocated (store : Store) (current_data : gmap string nat)
    (history : gmap string (list nat)) : Prop :=
  map_Forall (λ _ r, is_Some (store !! r)) current_data ∧
  map_Forall (λ _ refs, Forall (λ r, is_Some (store !! r)) refs) history.

#[global] Instance allocated_dec store current_data history :
  Decision (allocated store current_data history).
Proof. unfold allocated. apply _. Defined.

(** ** [run_continuous] *)

(** The loop of [run_continuous] until it is interrupted: one call of
    [check_and_notify] per cycle, each with what its fetch returned, what
    the device did with its writes and what the report writers did; an
    exception of a cycle is caught and the loop goes on. *)
Definition run_continuous (fs : FileSystem)
    (cycles : list (Snapshot * Device * Writers)) : FileSystem :=
  foldl (λ fs cycle,
           (check_and_notify cycle.2 fs cycle.1.1 cycle.1.2).1) fs cycles.


(** ** [format_price] *)

(** The digits of [format(n, ',')]: a comma in front of every group of
    three digits counted from the right, except in front of the whole. *)
Fixpoint group_digits (ds : string) : string :=
  match ds with
  | "" => ""
  | String d ds =>
      if decide (String.length ds ≠ 0 ∧ String.length ds `mod` 3 = 0)%nat
      then String d (String "," (group_digits ds))
      else String d (group_digits ds)
  end.

(** [f"{price:,}"] for an integer: the sign, then the grouped digits. *)
Definition format_comma (price : Z) : string :=
  if decide (price < 0)%Z then String "-" (group_digits (intstr (- price)))
  else group_digits (intstr price).

(** [s.replace(old, new)] for one-character [old] and [new]. *)
Fixpoint replace (old new : ascii) (s : string) : string :=
  match s with
  | "" => ""
  | String c s => String (if Ascii.eqb c old then new else c) (replace old new s)
  end.

(** [format_price]: [f"{price:,} Kƒç".replace(',', ' ')], the currency
    text being the characters the source file holds. *)
Definition format_price (price : Z) : string :=
  replace "," " " (format_comma price +:+ " Kƒç").

(** [s] without the characters [c]. *)
Fixpoint remove (c : ascii) (s : string) : string :=
  match s with
  | "" => ""
  | String c' s => if Ascii.eqb c' c then remove c s else String c' (remove c s)
  end.

(** Every character of [s] is a decimal digit. *)
Fixpoint all_digits (s : string) : bool :=
  match s with
  | "" => true
  | String c s => is_digit c && all_digits s
  end.

(** The groups one after the other, each behind a separator. *)
Fixpoint with_sep (sep : ascii) (groups : list string) : string :=
  match groups with
  | [] => ""
  | group :: groups => String sep (group +:+ with_sep sep groups)
  end.

(** The groups one after the other. *)
Fixpoint joined (groups : list string) : string :=
  match groups with
  | [] => ""
  | group :: groups => group +:+ joined groups
  end.

(** The sign that [format_comma] writes. *)
Definition sign_of (price : Z) : string :=
  if decide (price < 0)%Z then "-" else "".

(** ** [fetch_properties] *)

(** An estate as a page of the API lists it, by the keys the loop reads;
    [None] is a key that is missing.  [e_images] holds, for every entry
    of [item['_links']['images']], its ['href'] if it has one; the list
    is empty when there is no such entry. *)
Record Estate := mkEstate {
  e_hash_id : option Z;
  e_name : option string;
  e_price : option Z;
  e_locality : option string;
  e_seo_locality : option string;
  e_usable_area : option Z;
  e_images : list (option string)
}.

(** What the loop meets outside the program: the answer to the request
    for a page ([None] when the request, its status check or the decoding
    raises, else the list at [data['_embedded']['estates']], empty when
    there is none), and what the [n]-th call of [fetch_property_details]
    and of [datetime.now().isoformat()] returns. *)
Record World := mkWorld {
  api : nat → option (list Estate);
  details : nat → string;
  now : nat → string
}.

(** [params['per_page']] *)
Definition per_page : nat := 60.

(** The body of [for item in estates] up to the dictionary it stores;
    [None] when [item['hash_id']] or [item['seo']['locality']] raises
    [KeyError]. *)
Definition build_listing (w : World) (tick : nat) (item : Estate)
    : option Listing :=
  match e_hash_id item, e_seo_locality item with
  | Some hash_id, Some seo_locality =>
      let prop_id := intstr hash_id in
      let image_url :=
        match e_images item with
        | [] => None
        | first :: _ => Some (default "" first)
        end in
      let description := details w tick in
      Some (mkListing prop_id
              (default "N/A" (e_name item))
              (default 0%Z (e_price item))
              (default "N/A" (e_locality item))
              ("https://www.sreality.cz/detail/prodej/dum/rodinny/"
               +:+ seo_locality +:+ "/" +:+ intstr hash_id)
              (from_option SInt (SStr "N/A") (e_usable_area item))
              image_url
              description
              (now w tick))
  | _, _ => None
  end.

(** [for item in estates: ... all_properties[prop_id] = {...}]: the
    dictionary, the number of listings built so far, and whether the loop
    ran to its end ([false]: an item raised). *)
Fixpoint process_items (w : World) (estates : list Estate)
    (all_properties : Snapshot) (tick : nat) : Snapshot * nat * bool :=
  match estates with
  | [] => (all_properties, tick, true)
  | item :: estates =>
      match build_listing w tick item with
      | Some prop =>
          process_items w estates (<[id prop := prop]> all_properties)
                        (S tick)
      | None => (all_properties, tick, false)
      end
  end.

(** The [while True] loop of [fetch_properties] from [page] on.  Each
    request takes one unit of [fuel]; [None] is a loop that has not ended
    when the fuel is used up. *)
Fixpoint fetch_pages (w : World) (fuel page : nat)
    (all_properties : Snapshot) (tick : nat) : option Snapshot :=
  match fuel with
  | O => None
  | S fuel =>
      match api w page with
      | None => Some all_properties
      | Some [] => Some all_properties
      | Some estates =>
          let '(all_properties, tick, completed) :=
            process_items w estates all_properties tick in
          if completed then
            if decide (length estates < per_page)%nat
            then Some all_properties
            else fetch_pages w fuel (S page) all_properties tick
          else Some all_properties
      end
  end.

(** [fetch_properties] *)
Definition fetch_properties (w : World) (fuel : nat) : option Snapshot :=
  fetch_pages w fuel 1 ∅ 0.

(** An estate with both keys that the loop reads without a default. *)
Definition well_formed (item : Estate) : Prop :=
  is_Some (e_hash_id item) ∧ is_Some (e_seo_locality item).

#[global] Instance well_formed_dec item : Decision (well_formed item).
Proof. unfold well_formed. apply _. Defined.

(** A page that ends the loop: a failed request, fewer estates than a
    full page (none at all included), or an estate that raises. *)
Definition ends_fetch (w : World) (page : nat) : Prop :=
  match api w page with
  | None => True
  | Some estates =>
      (length estates < per_page)%nat ∨ ¬ Forall well_formed estates
  end.

#[global] Instance ends_fetch_dec w page : Decision (ends_fetch w page).
Proof. unfold ends_fetch. destruct (api w page); apply _. Defined.

(** The two worlds answer alike up to page [n]. *)
Definition agree_to (n : nat) (w w' : World) : Prop :=
  (∀ page, (page ≤ n)%nat → api w' page = api w page) ∧
  (∀ tick, details w' tick = details w tick) ∧
  (∀ tick, now w' tick = now w tick).

(** [k] is the id of an estate on one of the pages 1 to [n]. *)
Definition has_id (k : string) (item : Estate) : Prop :=
  intstr <$> e_hash_id item = Some k.

Definition listed (w : World) (n : nat) (k : string) : Prop :=
  Exists (λ page, Exists (has_id k) (default [] (api w page))) (seq 1 n).

#[global] Instance listed_dec w n k : Decision (listed w n k).
Proof. unfold listed, has_id. apply _. Defined.

(** The first request fails, or its page is empty, or the first estate
    of the page raises. *)
Definition nothing_listed (w : World) : Prop :=
  match api w 1 with
  | None => True
  | Some [] => True
  | Some (item :: _) => ¬ well_formed item
  end.

#[global] Instance nothing_listed_dec w : Decision (nothing_listed w).
Proof. unfold nothing_listed. destruct (api w 1) as [[|??]|]; apply _. Defined.

(** ** [download_image] *)

(** [with open(path, 'wb') as f: f.write(content)]: opening creates or
    empties the file; of a content longer than the [room] the device has,
    the part that fits stays in the file and the write raises. *)
Definition write_to (fs : FileSystem) (path content : string)
    (room : option nat) : FileSystem * result () :=
  match room with
  | Some n =>
      if decide (n < String.length content)%nat
      then (<[path := substring 0 n content]> fs, Raise OSError)
      else (<[path := content]> fs, Ok ())
  | None => (<[path := content]> fs, Ok ())
  end.

(** [download_image].  [get url] is the content that [requests.get]
    returns for the address, [None] when the request or its status check
    raises; [image_url] is [None] for Python's [None].  The result is the
    file system and the returned path ([None] for [None]). *)
Definition download_image (fs : FileSystem) (get : string → option string)
    (room : option nat) (image_url : option string) (property_id : string)
    : FileSystem * option string :=
  match image_url with
  | None => (fs, None)
  | Some "" => (fs, None)
  | Some image_url =>
      let image_path := image_path_of property_id in
      if decide (is_Some (fs !! image_path)) then (fs, Some image_path)
      else
        match get image_url with
        | None => (fs, None)
        | Some content =>
            match write_to fs image_path content room with
            | (fs, Ok _) => (fs, Some image_path)
            | (fs, Raise _) => (fs, None)
            end
        end
  end.

(** ** [upload_to_github] *)

(** The [CompletedProcess] of [subprocess.run(cmd, capture_output=True,
    text=True)]. *)
Record Completed := mkCompleted {
  returncode : Z;
  stdout : string;
  stderr : string
}.

(** What the method meets outside the program: whether [os.chdir] to a
    directory succeeds, and what running a command returns ([None]:
    [subprocess.run] raises, as when there is no [git] to run). *)
Record Git := mkGit {
  chdir : string → bool;
  run : list string → option Completed
}.

(** The lines the method prints: the start line, ["No changes to
    upload"], the two lines about a command that failed, the success line
    and the line of the [except] branch. *)
Inductive Message :=
| Uploading
| NoChanges
| CommandFailed (cmd : list string) (error : string)
| Uploaded
| UploadError.

#[global] Instance Message_eq_dec : EqDecision Message.
Proof. solve_decision. Defined.

(** The state the method acts on: the working directory of the process,
    the commands that have run, the lines printed. *)
Record Shell := mkShell {
  cwd : string;
  ran : list (list string);
  printed : list Message
}.

Definition print (line : Message) (sh : Shell) : Shell :=
  mkShell (cwd sh) (ran sh) (printed sh ++ [line]).

Definition set_cwd (dir : string) (sh : Shell) : Shell :=
  mkShell dir (ran sh) (printed sh).

Definition record_run (cmd : list string) (sh : Shell) : Shell :=
  mkShell (cwd sh) (ran sh ++ [cmd]) (printed sh).

(** [needle in text] *)
Fixpoint contains (needle text : string) : bool :=
  String.prefix needle text ||
  match text with
  | "" => false
  | String _ text => contains needle text
  end.

(** The list [commands]; [stamp] is
    [datetime.now().strftime("%Y-%m-%d %H:%M")]. *)
Definition commands (stamp : string) : list (list string) :=
  [ ["git"; "add"; "."];
    ["git"; "commit"; "-m"; "Update property data - " +:+ stamp];
    ["git"; "push"] ].

(** How [for cmd in commands] ends: at the end of the list, in the
    [return] of the nothing-to-commit branch, or in an exception. *)
Inductive Ending := AllRun | NothingToCommit | Raised.

Fixpoint run_commands (g : Git) (cmds : list (list string)) (sh : Shell)
    : Shell * Ending :=
  match cmds with
  | [] => (sh, AllRun)
  | cmd :: cmds =>
      match run g cmd with
      | None => (sh, Raised)
      | Some result =>
          let sh := record_run cmd sh in
          if decide (returncode result ≠ 0)%Z then
            if contains "nothing to commit" (stdout result)
               || contains "nothing to commit" (stderr result)
            then (print NoChanges sh, NothingToCommit)
            else run_commands g cmds
                   (print (CommandFailed cmd (stderr result)) sh)
          else run_commands g cmds sh
      end
  end.

(** [not self.github_repo_path] is false *)
Definition is_set (github_repo_path : option string) : bool :=
  match github_repo_path with
  | Some (String _ _) => true
  | _ => false
  end.

(** [upload_to_github], for a process whose [os.getcwd()] and whose way
    back [os.chdir(original_dir)] succeed. *)
Definition upload_to_github (enable_github_upload : bool)
    (github_repo_path : option string) (stamp : string) (g : Git)
    (sh : Shell) : Shell :=
  if negb enable_github_upload || negb (is_set github_repo_path) then sh
  else
    let sh := print Uploading sh in
    let original_dir := cwd sh in
    let path := default "" github_repo_path in
    if chdir g path then
      match run_commands g (commands stamp) (set_cwd path sh) with
      | (sh, AllRun) => set_cwd original_dir (print Uploaded sh)
      | (sh, NothingToCommit) => set_cwd original_dir sh
      | (sh, Raised) => set_cwd original_dir (print UploadError sh)
      end
    else set_cwd original_dir (print UploadError sh).
(** ** Sample data *)

Definition listing (i : string) (p : Z) (stamp : string) : Listing :=
  mkListing i "Rodinný dům" p "Ostrava" ("https://www.sreality.cz/detail/" +:+ i)
            (SInt 210) None "Popis" stamp.



(** A previous snapshot and a fetch with one listing of each kind:
    "A" cheaper than before, "B" gone, "D" as before, "N" not seen before. *)
Definition previous_sample : Snapshot :=
  {[ "A" := listing "A" 1000000 "t0";
     "B" := listing "B" 500000 "t0";
     "D" := listing "D" 7300000 "t0" ]}.

Definition current_sample : Snapshot :=
  {[ "A" := listing "A" 900000 "t1";
     "D" := listing "D" 7300000 "t1";
     "N" := listing "N" 5100000 "t1" ]}.

(** A history in which "B" and the relisted "N" already have a timeline. *)
Definition history_sample : History :=
  {[ "A" := [listing "A" 1000000 "t0"];
     "B" := [listing "B" 500000 "t0"];
     "D" := [listing "D" 7300000 "t0"];
     "N" := [listing "N" 5000000 "s8"; listing "N" 5000000 "s9"] ]}.


(** The two data files holding [previous_sample] and the history of its
    detection pass on a fresh directory. *)
Definition files_sample : FileSystem :=
  (save_history (save_data ∅ previous_sample None).1
                (detect ∅ previous_sample ∅).2 None).1.

(** Report writers that leave a page each and return; and the report
    writers for listings whose time stamp [datetime.fromisoformat] cannot
    read: the two that read the stamps raise before they write. *)
Definition writers_sample : Writers :=
  mkWriters (λ fs new changes, ([(AlertsFile, "<html>")], Ok ()))
            (λ fs removed, ([(RemovedFile, "<html>")], Ok ()))
            (λ fs data, ([(CatalogFile, "<html>")], Ok ()))
            (λ fs history, ([(HistoryHtmlFile, "<html>")], Ok ())).

Definition writers_raising_sample : Writers :=
  mkWriters (λ fs new changes, ([(AlertsFile, "<html>")], Ok ()))
            (λ fs removed, ([], Raise ValueError))
            (λ fs data, ([(CatalogFile, "<html>")], Ok ()))
            (λ fs history, ([], Raise ValueError)).

(** Two fetches six hours apart, stamped as [datetime.now().isoformat()]
    stamps them: "A" cheaper in the second, "B" gone, "N" not seen
    before. *)
Definition first_fetch_sample : Snapshot :=
  {[ "A" := listing "A" 1000000 "2024-05-01T06:00:00.251340";
     "B" := listing "B" 500000 "2024-05-01T06:00:01.107512" ]}.

Definition second_fetch_sample : Snapshot :=
  {[ "A" := listing "A" 900000 "2024-05-01T12:00:00.310077";
     "N" := listing "N" 5100000 "2024-05-01T12:00:01.284630" ]}.

(** The files after a cycle that fetched [first_fetch_sample] on a fresh
    directory. *)
Definition stored_sample : FileSystem :=
  (check_and_notify writers_sample ∅ first_fetch_sample reliable).1.

(** The fetched listings as dictionaries 0 and 1, the stored record of
    "A" as dictionary 2. *)
Definition store_sample : Store :=
  {[ 0%nat := listing "A" 900000 "t1";
     1%nat := listing "N" 5100000 "t1";
     2%nat := listing "A" 1000000 "t0" ]}.

Definition current_refs_sample : gmap string nat :=
  {[ "A" := 0%nat; "N" := 1%nat ]}.

Definition history_refs_sample : gmap string (list nat) :=
  {[ "A" := [2%nat] ]}.


(** An estate as the API lists it, and a world with a full first page, a
    second page whose second estate lacks its keys, and no third page. *)
Definition estate_sample (hash_id : Z) : Estate :=
  mkEstate (Some hash_id) (Some "Prodej rodinného domu")
           (Some (5000000 + hash_id)%Z) (Some "Ostrava")
           (Some "ostrava-poruba") (Some 220%Z)
           [Some "https://img.example/1.jpg"; None].

Definition world_sample : World :=
  mkWorld (λ page,
             match page with
             | 1%nat => Some (estate_sample <$> seqZ 1 60)
             | 2%nat => Some [estate_sample 100;
                              mkEstate None None None None None None [];
                              estate_sample 101]
             | _ => None
             end)
          (λ tick, "Popis")
          (λ tick, "2024-05-01T06:00:00").

(** What [fetch_properties] returns in [world_sample], and its entry for
    the first estate of the second page. *)
Definition fetched_sample : Snapshot :=
  default ∅ (fetch_properties world_sample 2).

Definition listing_100_sample : Listing :=
  mkListing "100" "Prodej rodinného domu" 5000100 "Ostrava"
            "https://www.sreality.cz/detail/prodej/dum/rodinny/ostrava-poruba/100"
            (SInt 220) (Some "https://img.example/1.jpg") "Popis"
            "2024-05-01T06:00:00".

(** A repository whose push is refused, and one with nothing to commit. *)
Definition git_sample : Git :=
  mkGit (λ dir, true)
        (λ cmd, if decide (cmd = ["git"; "push"])
                then Some (mkCompleted 128 "" "fatal: unable to access")
                else Some (mkCompleted 0 "" "")).

Definition git_idle_sample : Git :=
  mkGit (λ dir, true)
        (λ cmd, if decide (cmd = ["git"; "add"; "."])
                then Some (mkCompleted 0 "" "")
                else if decide (cmd = ["git"; "push"])
                then Some (mkCompleted 0 "" "Everything up-to-date")
                else Some (mkCompleted 1 "nothing to commit, working tree clean"
                                       "")).
(** * Properties of the detection pass *)

Section history_append.
Implicit Types (history : History) (prop : Listing) (k : string).

Lemma history_append_lookup history k prop k' :
  history_append history k prop !! k'
  = if decide (k = k') then Some (default [] (history !! k) ++ [prop])
    else history !! k'.
Proof.
  unfold history_append, copy.
  destruct (history !! k) as [snapshots|] eqn:Hk; case_decide; subst.
  - rewrite lookup_alter_eq, Hk. done.
  - rewrite lookup_alter_ne by done. done.
  - rewrite lookup_alter_eq, lookup_insert_eq. done.
  - rewrite lookup_alter_ne, lookup_insert_ne by done. done.
Qed.
End history_append.

Section detection_loop.
Context (previous_data : Snapshot).
Implicit Types (st : LoopState) (l : list (string * Listing)) (k : string).

Lemma detect_step_history st k prop :
  ls_history (detect_step previous_data st (k, prop))
  = history_append (ls_history st) k prop.
Proof.
  unfold detect_step. destruct (previous_data !! k); [case_decide|]; done.
Qed.

(** The history after the loop, key by key: the listings the loop
    visited under [k], in visiting order, behind what was there. *)
Lemma detect_loop_history l st k :
  ls_history (foldl (detect_step previous_data) st l) !! k
  = match snd <$> filter (λ kv, kv.1 = k) l with
    | [] => ls_history st !! k
    | adds => Some (default [] (ls_history st !! k) ++ adds)
    end.
Proof.
  revert st. induction l as [|[k0 prop] l IH]; intros st; [done|].
  cbn [foldl]. rewrite IH, detect_step_history, history_append_lookup.
  rewrite filter_cons. cbn [fst]. case_decide; subst.
  - cbn [fmap list_fmap snd]. cbn [default].
    destruct (snd <$> filter _ l) as [|a adds]; cbn.
    + done.
    + by rewrite <-app_assoc.
  - done.
Qed.

Lemma detect_loop_new l st :
  ls_new (foldl (detect_step previous_data) st l)
  = ls_new st ++ (snd <$> filter (λ kv, previous_data !! kv.1 = None) l).
Proof.
  revert st. induction l as [|[k0 prop] l IH]; intros st.
  { cbn. by rewrite app_nil_r. }
  cbn [foldl]. rewrite IH, filter_cons. cbn [fst]. unfold detect_step.
  destruct (previous_data !! k0) as [old|] eqn:Hold.
  - rewrite (decide_False (P := Some old = None)) by done. by case_decide.
  - rewrite (decide_True (P := None = None)) by done. cbn.
    by rewrite <-app_assoc.
Qed.

Lemma detect_loop_changes l st :
  ls_changes (foldl (detect_step previous_data) st l)
  = ls_changes st ++ omap (change_of previous_data) l.
Proof.
  revert st. induction l as [|[k0 prop] l IH]; intros st.
  { cbn. by rewrite app_nil_r. }
  cbn [foldl omap list_omap]. rewrite IH. unfold detect_step, change_of.
  cbn [fst snd].
  destruct (previous_data !! k0) as [old|] eqn:Hold; [case_decide|]; cbn;
    by rewrite <-?app_assoc.
Qed.
End detection_loop.

Lemma removed_loop (current_data : Snapshot) l removed :
  foldl (removed_step current_data) removed l
  = removed ++ (snd <$> filter (λ kv : string * Listing,
                                  current_data !! kv.1 = None) l).
Proof.
  revert removed. induction l as [|[k0 prop] l IH]; intros removed.
  { cbn. by rewrite app_nil_r. }
  cbn [foldl]. rewrite IH, filter_cons. cbn [fst]. unfold removed_step.
  destruct (current_data !! k0) eqn:Hk.
  - by rewrite decide_False.
  - rewrite decide_True by done. cbn. by rewrite <-app_assoc.
Qed.
(** ** The loops over the entries of a dictionary *)

Lemma filter_key_NoDup {A} (l : list (string * A)) (k : string) :
  NoDup l.*1 →
  (filter (λ kv, kv.1 = k) l).*2
  = match (list_to_map l : gmap string A) !! k with
    | Some v => [v]
    | None => []
    end.
Proof.
  induction l as [|[k0 v0] l IH]; intros Hnd; [done|].
  cbn [fmap list_fmap fst] in Hnd. apply NoDup_cons in Hnd as [Hk0 Hnd].
  specialize (IH Hnd). rewrite filter_cons. cbn [fst list_to_map foldr].
  case_decide; subst.
  - rewrite lookup_insert_eq. cbn [fmap list_fmap snd]. f_equal.
    rewrite IH. by rewrite (not_elem_of_list_to_map_1 _ _ Hk0).
  - rewrite lookup_insert_ne by done. done.
Qed.

(** A dictionary has one entry per key: the loop visits [k] once when
    the key is present and never otherwise. *)
Lemma visited_once {A} (m : gmap string A) (k : string) :
  (filter (λ kv, kv.1 = k) (map_to_list m)).*2
  = match m !! k with Some v => [v] | None => [] end.
Proof.
  rewrite filter_key_NoDup by apply NoDup_fst_map_to_list.
  by rewrite list_to_map_to_list.
Qed.

(** The history returned by the pass, key by key. *)
Lemma detect_history (P C : Snapshot) (H : History) (k : string) :
  (detect P C H).2 !! k
  = match C !! k with
    | Some prop => Some (default [] (H !! k) ++ [prop])
    | None => H !! k
    end.
Proof.
  unfold detect. cbn [snd]. rewrite detect_loop_history, visited_once.
  by destruct (C !! k).
Qed.

Lemma elem_of_new_properties (P C : Snapshot) (H : History) prop :
  prop ∈ new_properties (detect P C H).1
  ↔ ∃ k, C !! k = Some prop ∧ P !! k = None.
Proof.
  unfold detect. cbn [fst new_properties]. rewrite detect_loop_new.
  cbn [ls_new app]. rewrite list_elem_of_fmap. split.
  - intros [[k v] [-> [Hk Hin]%list_elem_of_filter]].
    exists k. by apply elem_of_map_to_list in Hin.
  - intros (k & HC & HP). exists (k, prop). split; [done|].
    apply list_elem_of_filter. split; [done|]. by apply elem_of_map_to_list.
Qed.

Lemma elem_of_removed_properties (P C : Snapshot) (H : History) prop :
  prop ∈ removed_properties (detect P C H).1
  ↔ ∃ k, P !! k = Some prop ∧ C !! k = None.
Proof.
  unfold detect. cbn [fst removed_properties]. rewrite removed_loop.
  cbn [app]. rewrite list_elem_of_fmap. split.
  - intros [[k v] [-> [Hk Hin]%list_elem_of_filter]].
    exists k. by apply elem_of_map_to_list in Hin.
  - intros (k & HP & HC). exists (k, prop). split; [done|].
    apply list_elem_of_filter. split; [done|]. by apply elem_of_map_to_list.
Qed.

Lemma elem_of_price_changes (P C : Snapshot) (H : History) pc :
  pc ∈ price_changes (detect P C H).1
  ↔ ∃ k prop old, C !! k = Some prop ∧ P !! k = Some old ∧
      price old ≠ price prop ∧
      pc = mkPriceChange prop (price old) (price prop - price old).
Proof.
  unfold detect. cbn [fst price_changes]. rewrite detect_loop_changes.
  cbn [ls_changes app]. rewrite list_elem_of_omap. unfold change_of. split.
  - intros [[k prop] [Hin Hpc]]. cbn [fst snd] in Hpc.
    apply elem_of_map_to_list in Hin.
    destruct (P !! k) as [old|] eqn:HP; [|done].
    case_decide; [|done]. exists k, prop, old. naive_solver.
  - intros (k & prop & old & HC & HP & Hne & ->). exists (k, prop).
    split; [by apply elem_of_map_to_list|]. cbn [fst snd].
    rewrite HP. by rewrite decide_True.
Qed.
(** ** Classification *)

Lemma elem_of_unchanged_ids (P C : Snapshot) (k : string) :
  k ∈ unchanged_ids P C
  ↔ ∃ prop old, C !! k = Some prop ∧ P !! k = Some old ∧
      price old = price prop.
Proof.
  unfold unchanged_ids. rewrite elem_of_dom. unfold is_Some.
  setoid_rewrite map_lookup_filter_Some. unfold falls_through. cbn [fst snd].
  split.
  - intros (prop & Hk & Hf). destruct (P !! k) as [old|]; [|done]. eauto.
  - intros (prop & old & Hk & HPk & Heq). exists prop. by rewrite HPk.
Qed.

Section classification.
Context (P C : Snapshot) (H : History).
Context (HP : keyed_by_id P) (HC : keyed_by_id C).

Lemma elem_of_new_ids k :
  k ∈ new_ids (detect P C H).1 ↔ is_Some (C !! k) ∧ P !! k = None.
Proof.
  unfold new_ids. rewrite elem_of_list_to_set, list_elem_of_fmap. split.
  - intros (prop & -> & (k' & Hk & HPk)%elem_of_new_properties).
    by rewrite (HC _ _ Hk).
  - intros [[prop Hk] HPk]. exists prop. split; [by rewrite (HC _ _ Hk)|].
    apply elem_of_new_properties. eauto.
Qed.

Lemma elem_of_removed_ids k :
  k ∈ removed_ids (detect P C H).1 ↔ is_Some (P !! k) ∧ C !! k = None.
Proof.
  unfold removed_ids. rewrite elem_of_list_to_set, list_elem_of_fmap. split.
  - intros (prop & -> & (k' & Hk & HCk)%elem_of_removed_properties).
    by rewrite (HP _ _ Hk).
  - intros [[prop Hk] HCk]. exists prop. split; [by rewrite (HP _ _ Hk)|].
    apply elem_of_removed_properties. eauto.
Qed.

Lemma elem_of_changed_ids k :
  k ∈ changed_ids (detect P C H).1
  ↔ ∃ prop old, C !! k = Some prop ∧ P !! k = Some old ∧
      price old ≠ price prop.
Proof.
  unfold changed_ids. rewrite elem_of_list_to_set, list_elem_of_fmap. split.
  - intros (pc & -> & (k' & prop & old & Hk & HPk & Hne & ->)
                       %elem_of_price_changes).
    cbn. rewrite (HC _ _ Hk). eauto.
  - intros (prop & old & Hk & HPk & Hne).
    exists (mkPriceChange prop (price old) (price prop - price old)).
    split; [cbn; by rewrite (HC _ _ Hk)|].
    apply elem_of_price_changes. naive_solver.
Qed.
End classification.

(** C1.  For snapshots whose listings are stored under their own id (as
    [fetch_properties] builds them), the detection pass of
    [check_and_notify] classifies ids exactly: the new ids are
    [keys(C) - keys(P)], the removed ids are [keys(P) - keys(C)], the
    price-changed ids are the ids in both snapshots whose prices differ;
    the three sets are pairwise disjoint; and new, price-changed and
    unchanged ids (in both, same price) together are [keys(C)]. *)
Theorem detect_classifies_ids (P C : Snapshot) (H : History) :
  keyed_by_id P → keyed_by_id C →
  let d := (detect P C H).1 in
  new_ids d = dom C ∖ dom P ∧
  removed_ids d = dom P ∖ dom C ∧
  (∀ k, k ∈ changed_ids d ↔
        ∃ prop old, C !! k = Some prop ∧ P !! k = Some old ∧
                    price old ≠ price prop) ∧
  new_ids d ## changed_ids d ∧
  new_ids d ## removed_ids d ∧
  changed_ids d ## removed_ids d ∧
  new_ids d ∪ changed_ids d ∪ unchanged_ids P C = dom C.
Proof.
  intros HP HC d.
  assert (Hnew : new_ids d = dom C ∖ dom P).
  { apply set_eq. intros k. unfold d. rewrite elem_of_new_ids by done.
    rewrite elem_of_difference, !elem_of_dom, <-eq_None_not_Some. done. }
  assert (Hrem : removed_ids d = dom P ∖ dom C).
  { apply set_eq. intros k. unfold d. rewrite elem_of_removed_ids by done.
    rewrite elem_of_difference, !elem_of_dom, <-eq_None_not_Some. done. }
  assert (Hchg : ∀ k, k ∈ changed_ids d ↔
            ∃ prop old, C !! k = Some prop ∧ P !! k = Some old ∧
                        price old ≠ price prop).
  { intros k. unfold d. by apply elem_of_changed_ids. }
  assert (Hsub : changed_ids d ⊆ dom C ∩ dom P).
  { intros k (prop & old & ? & ? & ?)%Hchg.
    apply elem_of_intersection. split; by apply elem_of_dom. }
  split_and!; try done.
  - rewrite Hnew. intros k [_ Hk]%elem_of_difference Hk'%Hsub.
    by apply elem_of_intersection in Hk' as [_ ?].
  - rewrite Hnew, Hrem.
    by intros k [? _]%elem_of_difference [_ ?]%elem_of_difference.
  - rewrite Hrem. intros k Hk%Hsub [_ Hk']%elem_of_difference.
    by apply elem_of_intersection in Hk as [? _].
  - apply set_eq. intros k. rewrite !elem_of_union, Hnew, Hchg.
    rewrite elem_of_unchanged_ids, elem_of_difference, !elem_of_dom.
    split.
    + intros [[[? _]|(prop & ? & ? & _)]|(prop & ? & ? & _)]; eauto.
    + intros [prop Hk]. destruct (P !! k) as [old|] eqn:HPk.
      * destruct (decide (price old = price prop)); [right|left; right];
          eauto 10.
      * left; left. split; [eauto|]. by intros [? ?].
Qed.
(** Closes a decidable fact about concrete data by evaluation. *)
Ltac by_evaluation := apply (bool_decide_unpack _); vm_compute; exact I.

Lemma detect_classifies_ids_witness :
  keyed_by_id previous_sample ∧ keyed_by_id current_sample ∧
  let d := (detect previous_sample current_sample history_sample).1 in
  new_ids d = {[ "N" ]} ∧ removed_ids d = {[ "B" ]} ∧
  "A" ∈ changed_ids d ∧ "D" ∈ unchanged_ids previous_sample current_sample.
Proof.
  assert (HP : keyed_by_id previous_sample) by by_evaluation.
  assert (HC : keyed_by_id current_sample) by by_evaluation.
  split; [done|]. split; [done|]. intros d.
  destruct (detect_classifies_ids previous_sample current_sample
              history_sample HP HC) as (Hnew & Hrem & Hchg & _).
  fold d in Hnew, Hrem, Hchg. split_and!; [| | |by_evaluation].
  - rewrite Hnew. by vm_compute.
  - rewrite Hrem. by vm_compute.
  - apply Hchg. eexists _, _. split_and!; [by vm_compute..|].
    vm_compute. discriminate.
Defined.

(** ** The scenarios of the first run and of a removal *)

Example scenario_first_run :
  detect ∅ {[ "A" := listing "A" 1000000 "t1" ]} ∅
  = (mkDiff [listing "A" 1000000 "t1"] [] [],
     {[ "A" := [listing "A" 1000000 "t1"] ]}).
Proof. vm_compute. reflexivity. Qed.

Example scenario_removed :
  let P : Snapshot := {[ "A" := listing "A" 1000000 "t0";
                         "B" := listing "B" 500000 "t0" ]} in
  let C : Snapshot := {[ "A" := listing "A" 1000000 "t1" ]} in
  let H : History := {[ "A" := [listing "A" 1000000 "t0"];
                        "B" := [listing "B" 500000 "t0"] ]} in
  detect P C H
  = (mkDiff [] [] [listing "B" 500000 "t0"],
     {[ "A" := [listing "A" 1000000 "t0"; listing "A" 1000000 "t1"];
        "B" := [listing "B" 500000 "t0"] ]}).
Proof. vm_compute. reflexivity. Qed.

(** ** History *)

(** C2.  One run of the detection pass appends exactly one record to
    [history[id]] for every id of the current snapshot, creating the list
    when the id has none, whatever the previous snapshot says about the id;
    the appended record is the current one, so its price is
    [C[id].price]; the entry of an id outside the current snapshot is left
    as it was. *)
Theorem detect_appends_once (P C : Snapshot) (H : History) (k : string) :
  let H' := (detect P C H).2 in
  match C !! k with
  | Some prop =>
      H' !! k = Some (default [] (H !! k) ++ [prop]) ∧
      price <$> last (default [] (H' !! k)) = Some (price prop) ∧
      length (default [] (H' !! k)) = S (length (default [] (H !! k)))
  | None => H' !! k = H !! k
  end.
Proof.
  cbn zeta. rewrite detect_history. destruct (C !! k) as [prop|]; [|done].
  cbn [from_option Datatypes.id]. rewrite last_snoc, length_app. cbn.
  split_and!; [done..|lia].
Qed.



(** Every emitted entry has this shape. *)
Lemma price_changes_sound (P C : Snapshot) (H : History) (pc : PriceChange) :
  pc ∈ price_changes (detect P C H).1 →
  price_diff pc = (price (pc_prop pc) - old_price pc)%Z ∧
  old_price pc ≠ price (pc_prop pc).
Proof. intros (k & prop & old & _ & _ & Hne & ->)%elem_of_price_changes. done. Qed.

(** C9.  An id that is absent from the previous snapshot but still has a
    timeline in the loaded history (removed earlier, listed again) is
    reported as new, and its record is appended behind the existing
    timeline, which is kept as it was. *)
Theorem relisted_extends_timeline (P C : Snapshot) (H : History) (k : string)
    (prop : Listing) (timeline : list Listing) :
  P !! k = None → H !! k = Some timeline → C !! k = Some prop →
  (detect P C H).2 !! k = Some (timeline ++ [prop]) ∧
  prop ∈ new_properties (detect P C H).1.
Proof.
  intros HP HH HC. split.
  - by rewrite detect_history, HC, HH.
  - apply elem_of_new_properties. eauto.
Qed.

Lemma relisted_extends_timeline_witness :
  previous_sample !! "N" = None ∧
  history_sample !! "N"
    = Some [listing "N" 5000000 "s8"; listing "N" 5000000 "s9"] ∧
  current_sample !! "N" = Some (listing "N" 5100000 "t1") ∧
  (detect previous_sample current_sample history_sample).2 !! "N"
    = Some [listing "N" 5000000 "s8"; listing "N" 5000000 "s9";
            listing "N" 5100000 "t1"] ∧
  listing "N" 5100000 "t1"
    ∈ new_properties (detect previous_sample current_sample history_sample).1.
Proof.
  assert (HP : previous_sample !! "N" = None) by by vm_compute.
  assert (HH : history_sample !! "N"
    = Some [listing "N" 5000000 "s8"; listing "N" 5000000 "s9"])
    by by vm_compute.
  assert (HC : current_sample !! "N" = Some (listing "N" 5100000 "t1"))
    by by vm_compute.
  split_and!; [done..| |];
    apply (relisted_extends_timeline _ _ _ _ _ _ HP HH HC).
Defined.

(** * JSON text *)

Example loads_escapes :
  loads (String quote ("é🏠A\/" +:+ String quote ""))
  = Ok (JStr "é🏠A/").
Proof. vm_compute. reflexivity. Qed.

(** ** Strings survive [encode_basestring] and [scanstring] *)

Lemma result_bind_Ok {A B} (f : A → result B) (a : A) : (Ok a ≫= f) = f a.
Proof. done. Qed.

Lemma scanstring_escape_char (c : ascii) (s : string) :
  scanstring (escape_char c +:+ s)
  = '(str, rest) ← scanstring s; Ok (String c str, rest).
Proof.
  destruct c as [[] [] [] [] [] [] [] []]; reflexivity.
Qed.


Lemma string_app_cons (c : ascii) (s t : string) :
  String c s +:+ t = String c (s +:+ t).
Proof. done. Qed.

Lemma string_app_assoc (s1 s2 s3 : string) :
  (s1 +:+ s2) +:+ s3 = s1 +:+ (s2 +:+ s3).
Proof.
  induction s1 as [|c s1 IH]; [done|].
  rewrite !string_app_cons. by f_equal.
Qed.

Lemma scanstring_escape (s rest : string) :
  scanstring (escape s +:+ String quote rest) = Ok (s, rest).
Proof.
  induction s as [|c s IH]; [reflexivity|].
  cbn [escape]. rewrite string_app_assoc, scanstring_escape_char, IH. done.
Qed.

(** ** Integers survive [int.__repr__] and the number scanner *)


Lemma digits_string_of_uint (d : Decimal.uint) (rest : string) :
  ends_number rest →
  digits (NilEmpty.string_of_uint d +:+ rest)
  = (NilEmpty.string_of_uint d, rest).
Proof.
  intros Hrest.
  induction d as [|d IH|d IH|d IH|d IH|d IH|d IH|d IH|d IH|d IH|d IH];
    cbn [NilEmpty.string_of_uint];
    rewrite ?string_app_cons; cbn [digits]; rewrite ?IH; try done.
  change ("" +:+ rest) with rest.
  destruct rest as [|c rest]; [done|]. cbn [digits].
  destruct Hrest as [-> _]. done.
Qed.

Lemma to_uint_unorm (p : positive) :
  Decimal.unorm (Pos.to_uint p) = Pos.to_uint p.
Proof.
  rewrite <-DecimalPos.Unsigned.to_of, DecimalPos.Unsigned.of_to. done.
Qed.

Lemma to_uint_head (p : positive) (d : Decimal.uint) :
  Pos.to_uint p ≠ Decimal.D0 d.
Proof.
  intros Hp. pose proof (to_uint_unorm p) as Hn. rewrite Hp in Hn.
  rewrite DecimalFacts.unorm_D0 in Hn. unfold Decimal.unorm in Hn.
  destruct (Decimal.nzhead d) eqn:Hd; try discriminate.
  - injection Hn as <-. exact (DecimalPos.Unsigned.to_uint_nonzero p Hp).
  - exact (DecimalFacts.nzhead_nonzero d _ Hd).
Qed.

Lemma match_digits_uint (p : positive) (rest : string) :
  ends_number rest →
  match_digits (NilZero.string_of_uint (Pos.to_uint p) +:+ rest)
  = Some (NilZero.string_of_uint (Pos.to_uint p), rest).
Proof.
  intros Hrest. pose proof (to_uint_head p) as Hhead.
  pose proof (DecimalPos.Unsigned.to_uint_nonnil p) as Hnil.
  destruct (Pos.to_uint p) as [|d|d|d|d|d|d|d|d|d|d]; try done;
    [by destruct (Hhead d)|..];
    cbn [NilZero.string_of_uint NilEmpty.string_of_uint];
    rewrite string_app_cons; unfold match_digits;
    cbn [Ascii.eqb Bool.eqb is_digit N_of_ascii N_of_digits];
    cbn -[digits]; by rewrite digits_string_of_uint.
Qed.

Lemma match_integer_intstr (z : Z) (rest : string) :
  ends_number rest → match_integer (intstr z +:+ rest) = Some (intstr z, rest).
Proof.
  intros Hrest. unfold intstr.
  destruct z as [|p|p]; cbn [Z.to_int NilZero.string_of_int].
  - done.
  - pose proof (match_digits_uint p rest Hrest) as Hm.
    pose proof (to_uint_head p) as Hhead.
    pose proof (DecimalPos.Unsigned.to_uint_nonnil p) as Hnil.
    destruct (Pos.to_uint p) as [|d|d|d|d|d|d|d|d|d|d]; done.
  - rewrite string_app_cons. cbn [match_integer Ascii.eqb Bool.eqb].
    by rewrite match_digits_uint.
Qed.

Lemma int_of_string_intstr (z : Z) :
  NilZero.int_of_string (intstr z) = Some (Z.to_int z).
Proof.
  unfold intstr. apply NilZero.isi; destruct z; try done; cbn [Z.to_int];
    intros [= Hp]; by apply (DecimalPos.Unsigned.to_uint_nonnil p).
Qed.

Lemma ends_number_no_float (rest : string) :
  ends_number rest → has_frac rest || has_exp rest = false.
Proof.
  destruct rest as [|c rest]; [done|]. intros (_ & Hdot & He & HE).
  unfold has_frac, has_exp. destruct rest as [|d rest]; [done|].
  destruct (Ascii.eqb_spec c "."); [done|].
  destruct (Ascii.eqb_spec c "e"); [done|].
  destruct (Ascii.eqb_spec c "E"); [done|]. done.
Qed.

(** The first character of a printed integer. *)
Lemma intstr_head (z : Z) :
  ∃ c s, intstr z = String c s ∧ (c = "-"%char ∨ is_digit c = true).
Proof.
  unfold intstr. destruct z as [|p|p]; cbn [Z.to_int NilZero.string_of_int];
    [by eexists _, _; split; [done|right]| |by eexists _, _; split; [done|left]].
  pose proof (DecimalPos.Unsigned.to_uint_nonnil p) as Hnil.
  destruct (Pos.to_uint p); try done; eexists _, _; (split; [done|by right]).
Qed.

Lemma scan_atom_signed (c : ascii) (s : string) :
  c = "-"%char ∨ is_digit c = true →
  scan_atom (String c s) = scan_number (String c s).
Proof.
  intros Hc. unfold scan_atom. cbn [strip_prefix].
  destruct (Ascii.eqb_spec "n" c) as [<-|_]; [by destruct Hc|].
  destruct (Ascii.eqb_spec "t" c) as [<-|_]; [by destruct Hc|].
  destruct (Ascii.eqb_spec "f" c) as [<-|_]; [by destruct Hc|]. done.
Qed.

Lemma scan_atom_intstr (z : Z) (rest : string) :
  ends_number rest → scan_atom (intstr z +:+ rest) = Ok (JInt z, rest).
Proof.
  intros Hrest. pose proof (match_integer_intstr z rest Hrest) as Hm.
  destruct (intstr_head z) as (c & s & Hz & Hc).
  rewrite Hz, string_app_cons, scan_atom_signed by done.
  rewrite <-string_app_cons, <-Hz. unfold scan_number.
  rewrite Hm, ends_number_no_float, int_of_string_intstr by done.
  by rewrite DecimalZ.of_to.
Qed.

(** ** Values survive [iterencode] and [scan_once] *)

Lemma iterencode_list (level : nat) (first : json) (items : list json) :
  iterencode level (JList (first :: items))
  = "[" +:+ newline_indent (S level) +:+ iterencode (S level) first +:+
    iterencode_values level items +:+ newline_indent level +:+ "]".
Proof.
  cbn [iterencode]. do 3 f_equal. f_equal.
  induction items as [|value items IH]; [done|].
  cbn [iterencode_values]. by rewrite IH.
Qed.

Lemma iterencode_obj (level : nat) (key : string) (first : json)
    (pairs : list (string * json)) :
  iterencode level (JObj ((key, first) :: pairs))
  = "{" +:+ newline_indent (S level) +:+
    encode_basestring key +:+ ": " +:+ iterencode (S level) first +:+
    iterencode_pairs level pairs +:+ newline_indent level +:+ "}".
Proof.
  cbn [iterencode]. do 5 f_equal. f_equal.
  induction pairs as [|[k value] pairs IH]; [done|].
  cbn [iterencode_pairs]. by rewrite IH.
Qed.


Lemma skip_ws_starts_value (s : string) : starts_value s → skip_ws s = s.
Proof. destruct s as [|c s]; [done|]. intros [Hc _]. cbn. by rewrite Hc. Qed.

Lemma skip_ws_spaces (n : nat) (s : string) :
  skip_ws (spaces n +:+ s) = skip_ws s.
Proof. induction n as [|n IH]; [done|]. cbn [spaces]. by rewrite string_app_cons. Qed.

Lemma skip_ws_newline_indent (level : nat) (s : string) :
  skip_ws (newline_indent level +:+ s) = skip_ws s.
Proof.
  unfold newline_indent. rewrite string_app_cons. cbn [skip_ws].
  change (is_ws "010") with true. cbn iota. apply skip_ws_spaces.
Qed.

Lemma ends_number_newline_indent (level : nat) (s : string) :
  ends_number (newline_indent level +:+ s).
Proof. done. Qed.

Lemma iterencode_starts_value (level : nat) (o : json) (rest : string) :
  starts_value (iterencode level o +:+ rest).
Proof.
  destruct o as [|[]|z|s|[|first items]|[|[key first] pairs]];
    try rewrite iterencode_list; try rewrite iterencode_obj; try done.
  cbn [iterencode]. destruct (intstr_head z) as (c & s & -> & [->|Hc]); [done|].
  rewrite string_app_cons. split.
  - destruct c as [[] [] [] [] [] [] [] []]; done.
  - by intros ->.
Qed.

Lemma scan_once_signed (fuel : nat) (c : ascii) (s : string) :
  c = "-"%char ∨ is_digit c = true →
  scan_once (S fuel) (String c s) = scan_atom (String c s).
Proof.
  intros Hc. cbn [scan_once].
  destruct (Ascii.eqb_spec c quote) as [->|_]; [by destruct Hc|].
  destruct (Ascii.eqb_spec c "{") as [->|_]; [by destruct Hc|].
  destruct (Ascii.eqb_spec c "[") as [->|_]; [by destruct Hc|]. done.
Qed.

Lemma scan_once_array (fuel : nat) (s : string) :
  starts_value (skip_ws s) →
  scan_once (S fuel) (String "[" s)
  = '(values, rest) ← array_items fuel (skip_ws s); Ok (JList values, rest).
Proof.
  intros Hs. cbn [scan_once]. change (Ascii.eqb "[" quote) with false.
  change (Ascii.eqb "[" "{") with false. change (Ascii.eqb "[" "[") with true.
  cbn iota. destruct (skip_ws s) as [|c s']; [done|]. destruct Hs as [_ Hc].
  by destruct (Ascii.eqb_spec c "]").
Qed.

Lemma scan_once_object (fuel : nat) (s s' : string) :
  skip_ws s = String quote s' →
  scan_once (S fuel) (String "{" s)
  = '(pairs, rest) ← object_items fuel s'; Ok (JObj pairs, rest).
Proof.
  intros Hs. cbn [scan_once]. change (Ascii.eqb "{" quote) with false.
  change (Ascii.eqb "{" "{") with true. cbn iota. by rewrite Hs.
Qed.

Lemma array_items_step (fuel : nat) (s : string) :
  array_items (S fuel) s
  = '(value, s) ← scan_once fuel s;
    match skip_ws s with
    | String nextchar s' =>
        if Ascii.eqb nextchar "]" then Ok ([value], s')
        else if Ascii.eqb nextchar "," then
          '(values, rest) ← array_items fuel (skip_ws s');
          Ok (value :: values, rest)
        else Raise JSONDecodeError
    | "" => Raise JSONDecodeError
    end.
Proof. done. Qed.

Lemma object_items_step (fuel : nat) (s : string) :
  object_items (S fuel) s
  = '(key, s) ← scanstring s;
    match skip_ws s with
    | String colon s' =>
        if Ascii.eqb colon ":" then
          '(value, s) ← scan_once fuel (skip_ws s');
          match skip_ws s with
          | String nextchar s' =>
              if Ascii.eqb nextchar "}" then Ok ([(key, value)], s')
              else if Ascii.eqb nextchar "," then
                match skip_ws s' with
                | String q s'' =>
                    if Ascii.eqb q quote then
                      '(pairs, rest) ← object_items fuel s'';
                      Ok ((key, value) :: pairs, rest)
                    else Raise JSONDecodeError
                | "" => Raise JSONDecodeError
                end
              else Raise JSONDecodeError
          | "" => Raise JSONDecodeError
          end
        else Raise JSONDecodeError
    | "" => Raise JSONDecodeError
    end.
Proof. done. Qed.


Lemma array_items_iterencode (items : list json) :
  Forall scans_back items →
  ∀ first level fuel rest,
    scans_back first →
    (foldr (λ value n, S (scan_cost value + n)) 0 (first :: items) ≤ fuel)%nat →
    array_items fuel
      (iterencode (S level) first +:+ iterencode_values level items +:+
       newline_indent level +:+ String "]" rest)
    = Ok (first :: items, rest).
Proof.
  induction 1 as [|value items Hvalue _ IH];
    intros first level fuel rest Hfirst Hfuel;
    (destruct fuel as [|fuel]; [cbn in Hfuel; lia|]);
    rewrite array_items_step; cbn [foldr] in Hfuel.
  - change (iterencode_values level [] +:+ ?s) with s.
    rewrite Hfirst; [|lia|done]. rewrite result_bind_Ok. cbn beta iota.
    rewrite skip_ws_newline_indent. done.
  - cbn [iterencode_values]. rewrite !string_app_assoc.
    rewrite Hfirst; [|lia|done]. rewrite result_bind_Ok. cbn beta iota.
    rewrite string_app_cons. cbn [skip_ws]. change (is_ws ",") with false.
    cbn iota. change (Ascii.eqb "," "]") with false.
    change (Ascii.eqb "," ",") with true. cbn iota.
    change ("" +:+ ?s) with s.
    rewrite skip_ws_newline_indent, skip_ws_starts_value
      by apply iterencode_starts_value.
    rewrite IH; [done|done|cbn [foldr]; lia].
Qed.

Lemma encode_basestring_app (key s : string) :
  encode_basestring key +:+ s = String quote (escape key +:+ String quote s).
Proof.
  unfold encode_basestring. by rewrite string_app_cons, string_app_assoc.
Qed.

Lemma object_items_iterencode (pairs : list (string * json)) :
  Forall (λ kv, scans_back kv.2) pairs →
  ∀ key first level fuel rest,
    scans_back first →
    (foldr (λ kv n, S (scan_cost kv.2 + n)) 0 ((key, first) :: pairs)
     ≤ fuel)%nat →
    object_items fuel
      (escape key +:+
       String quote (": " +:+ iterencode (S level) first +:+
                     iterencode_pairs level pairs +:+
                     newline_indent level +:+ String "}" rest))
    = Ok ((key, first) :: pairs, rest).
Proof.
  induction 1 as [|[k value] pairs Hvalue _ IH];
    intros key first level fuel rest Hfirst Hfuel;
    (destruct fuel as [|fuel]; [cbn in Hfuel; lia|]);
    rewrite object_items_step, scanstring_escape, result_bind_Ok;
    cbn [foldr snd] in Hfuel; cbn beta iota;
    rewrite !string_app_cons; change ("" +:+ ?s) with s;
    cbn [skip_ws]; change (is_ws ":") with false; cbn iota;
    change (Ascii.eqb ":" ":") with true; cbn iota;
    cbn [skip_ws]; change (is_ws " ") with true; cbn iota;
    rewrite skip_ws_starts_value by apply iterencode_starts_value.
  - change (iterencode_pairs level [] +:+ ?s) with s.
    rewrite Hfirst; [|lia|done]. rewrite result_bind_Ok. cbn beta iota.
    rewrite skip_ws_newline_indent. done.
  - cbn [iterencode_pairs]. rewrite !string_app_assoc.
    rewrite Hfirst; [|lia|done]. rewrite result_bind_Ok. cbn beta iota.
    rewrite string_app_cons. cbn [skip_ws]. change (is_ws ",") with false.
    cbn iota. change (Ascii.eqb "," "}") with false.
    change (Ascii.eqb "," ",") with true. cbn iota.
    change ("" +:+ ?s) with s.
    rewrite skip_ws_newline_indent, encode_basestring_app.
    cbn [skip_ws]. change (is_ws quote) with false. cbn iota.
    change (Ascii.eqb quote quote) with true. cbn iota.
    rewrite IH; [done|done|cbn [foldr snd]; lia].
Qed.

(** Scanning the text of a value gives the value back and stops right
    behind the text. *)
Lemma scan_once_iterencode (o : json) : scans_back o.
Proof.
  induction o as [|b|z|s|items IH|pairs IH] using json_ind;
    intros level fuel rest Hfuel Hrest;
    (destruct fuel as [|fuel]; [cbn in Hfuel; lia|]).
  - done.
  - by destruct b.
  - cbn [iterencode]. destruct (intstr_head z) as (c & s & Hz & Hc).
    rewrite Hz, string_app_cons, scan_once_signed by done.
    rewrite <-string_app_cons, <-Hz. by apply scan_atom_intstr.
  - cbn [iterencode]. rewrite encode_basestring_app. cbn [scan_once].
    change (Ascii.eqb quote quote) with true. cbn iota.
    by rewrite scanstring_escape.
  - destruct items as [|first items]; [done|].
    apply Forall_cons in IH as [Hfirst IH].
    rewrite iterencode_list, !string_app_assoc, string_app_cons.
    change ("" +:+ ?s) with s.
    rewrite scan_once_array; rewrite skip_ws_newline_indent,
      skip_ws_starts_value by apply iterencode_starts_value;
      [|apply iterencode_starts_value].
    rewrite !string_app_cons. change ("" +:+ ?s) with s.
    rewrite array_items_iterencode; [done|done|done|].
    cbn [scan_cost] in Hfuel. lia.
  - destruct pairs as [|[key first] pairs]; [done|].
    apply Forall_cons in IH as [Hfirst IH].
    rewrite iterencode_obj, !string_app_assoc, string_app_cons.
    change ("" +:+ ?s) with s.
    rewrite (scan_once_object _ _
      (escape key +:+
       String quote (": " +:+ iterencode (S level) first +:+
                     iterencode_pairs level pairs +:+
                     newline_indent level +:+ String "}" rest))).
    + rewrite object_items_iterencode; [done|done|done|].
      cbn [scan_cost] in Hfuel. lia.
    + rewrite skip_ws_newline_indent, encode_basestring_app.
      rewrite !string_app_cons. by change ("" +:+ ?s) with s.
Qed.

Lemma string_app_nil_r (s : string) : s +:+ "" = s.
Proof. induction s as [|c s IH]; [done|]. by rewrite string_app_cons, IH. Qed.

Lemma string_app_length (s t : string) :
  String.length (s +:+ t) = (String.length s + String.length t)%nat.
Proof.
  induction s as [|c s IH]; [done|].
  rewrite string_app_cons. cbn [String.length]. by rewrite IH.
Qed.

Lemma scan_cost_length (o : json) :
  ∀ level, (scan_cost o ≤ String.length (iterencode level o))%nat.
Proof.
  induction o as [|b|z|s|items IH|pairs IH] using json_ind; intros level.
  - cbn. lia.
  - destruct b; cbn; lia.
  - cbn [iterencode scan_cost]. destruct (intstr_head z) as (c & s & -> & _).
    cbn [String.length]. lia.
  - cbn. lia.
  - destruct items as [|first items]; [cbn; lia|].
    rewrite iterencode_list, !string_app_length. cbn [scan_cost foldr].
    apply Forall_cons in IH as [Hfirst IH]. specialize (Hfirst (S level)).
    assert (foldr (λ value n, S (scan_cost value + n)) 0 items
            ≤ String.length (iterencode_values level items))%nat.
    { induction IH as [|value items Hvalue _ IH']; [done|].
      cbn [foldr iterencode_values]. rewrite !string_app_length.
      specialize (Hvalue (S level)). cbn [String.length]. lia. }
    cbn [String.length newline_indent]. lia.
  - destruct pairs as [|[key first] pairs]; [cbn; lia|].
    rewrite iterencode_obj, !string_app_length. cbn [scan_cost foldr snd].
    apply Forall_cons in IH as [Hfirst IH]. specialize (Hfirst (S level)).
    assert (foldr (λ kv n, S (scan_cost kv.2 + n)) 0 pairs
            ≤ String.length (iterencode_pairs level pairs))%nat.
    { induction IH as [|[k value] pairs Hvalue _ IH']; [done|].
      cbn [foldr iterencode_pairs snd]. rewrite !string_app_length.
      specialize (Hvalue (S level)). cbn [String.length snd] in *. lia. }
    cbn [String.length newline_indent snd] in *. lia.
Qed.

(** [json.loads(json.dumps(o, ensure_ascii=False, indent=2)) == o] *)
Lemma loads_dumps (o : json) : loads (dumps o) = Ok o.
Proof.
  unfold loads, dumps.
  rewrite skip_ws_starts_value
    by (rewrite <-(string_app_nil_r (iterencode 0 o));
        apply iterencode_starts_value).
  rewrite <-(string_app_nil_r (iterencode 0 o)) at 2.
  rewrite scan_once_iterencode; [done| |done].
  pose proof (scan_cost_length o 0). lia.
Qed.
(** ** The fuel of [loads] is enough *)

Lemma skip_ws_length (s : string) :
  (String.length (skip_ws s) ≤ String.length s)%nat.
Proof.
  induction s as [|c s IH]; [done|]. cbn [skip_ws].
  destruct (is_ws c); cbn [String.length]; lia.
Qed.

Lemma strip_prefix_length (word s rest : string) :
  strip_prefix word s = Some rest →
  String.length s = (String.length word + String.length rest)%nat.
Proof.
  revert s. induction word as [|a word IH]; intros [|b s] Hs; cbn in *;
    simplify_eq; try done.
  destruct (Ascii.eqb a b); [|done]. by rewrite (IH _ Hs).
Qed.

Lemma digits_length (s ds rest : string) :
  digits s = (ds, rest) → (String.length rest ≤ String.length s)%nat.
Proof.
  revert ds rest. induction s as [|c s IH]; intros ds rest Hd; cbn in *.
  - by simplify_eq.
  - destruct (is_digit c); [|simplify_eq; cbn; lia].
    destruct (digits s) as [ds' rest'] eqn:Hs. simplify_eq.
    specialize (IH _ _ eq_refl). lia.
Qed.

Lemma match_digits_length (s ds rest : string) :
  match_digits s = Some (ds, rest) →
  (String.length rest < String.length s)%nat.
Proof.
  destruct s as [|c s]; [done|]. cbn [match_digits String.length].
  destruct (Ascii.eqb c "0"); [intros; simplify_eq; lia|].
  destruct (is_digit c); [|done].
  destruct (digits s) as [ds' rest'] eqn:Hs. intros; simplify_eq.
  apply digits_length in Hs. lia.
Qed.

Lemma match_integer_length (s ds rest : string) :
  match_integer s = Some (ds, rest) →
  (String.length rest < String.length s)%nat.
Proof.
  destruct s as [|c s]; [done|]. cbn [match_integer].
  destruct (Ascii.eqb c "-").
  - destruct (match_digits s) as [[ds' rest']|] eqn:Hs; [|done].
    cbn. intros; simplify_eq. apply match_digits_length in Hs.
    cbn [String.length]. lia.
  - apply match_digits_length.
Qed.

Lemma scan_atom_length (s : string) :
  no_overflow (scan_atom s) ∧
  ∀ o rest, scan_atom s = Ok (o, rest) →
            (String.length rest < String.length s)%nat.
Proof.
  unfold scan_atom, scan_number.
  destruct (strip_prefix "null" s) as [r|] eqn:H1.
  { apply strip_prefix_length in H1. split; [done|].
    intros; simplify_eq. cbn in H1. lia. }
  destruct (strip_prefix "true" s) as [r|] eqn:H2.
  { apply strip_prefix_length in H2. split; [done|].
    intros; simplify_eq. cbn in H2. lia. }
  destruct (strip_prefix "false" s) as [r|] eqn:H3.
  { apply strip_prefix_length in H3. split; [done|].
    intros; simplify_eq. cbn in H3. lia. }
  destruct (match_integer s) as [[integer r]|] eqn:Hm.
  - apply match_integer_length in Hm.
    destruct (has_frac r || has_exp r); [done|].
    destruct (NilZero.int_of_string integer); [|done].
    split; [done|]. intros; simplify_eq. lia.
  - destruct (strip_prefix "NaN" s), (strip_prefix "Infinity" s),
      (strip_prefix "-Infinity" s); done.
Qed.

Lemma scanstring_length (n : nat) :
  ∀ s, (String.length s ≤ n)%nat →
    no_overflow (scanstring s) ∧
    ∀ str rest, scanstring s = Ok (str, rest) →
                (String.length rest < String.length s)%nat.
Proof.
  induction n as [|n IH]; intros s Hn;
    (destruct s as [|c s1]; [done|]); [cbn in Hn; lia|].
  cbn [scanstring].
  repeat match goal with
  | |- context [scanstring ?x ≫= _] =>
      let H := fresh in
      destruct (IH x ltac:(cbn [String.length] in *; lia)) as [? H];
      destruct (scanstring x) as [[? ?]|?] eqn:?;
      [specialize (H _ _ eq_refl)|]; cbn [mbind result_bind]
  | |- context [match ?x with _ => _ end] => destruct x eqn:?
  end;
  (split; [done|intros; simplify_eq; cbn [String.length] in *; lia]).
Qed.

Lemma scanstring_shorter (s str rest : string) :
  scanstring s = Ok (str, rest) →
  (String.length rest < String.length s)%nat.
Proof. apply (scanstring_length (String.length s) s). done. Qed.

Lemma scanstring_no_overflow (s : string) : no_overflow (scanstring s).
Proof. apply (scanstring_length (String.length s) s). done. Qed.

Lemma skip_ws_cons_length (s s' : string) (c : ascii) :
  skip_ws s = String c s' → (String.length s' < String.length s)%nat.
Proof.
  intros Hs. pose proof (skip_ws_length s) as Hle. rewrite Hs in Hle.
  cbn [String.length] in Hle. lia.
Qed.

Lemma fuel_suffices_all (fuel : nat) : fuel_suffices fuel.
Proof.
  unfold fuel_suffices.
  induction fuel as [|fuel (IHscan & IHarray & IHobject)].
  { split_and!; intros s Hs; lia. }
  split_and!; intros s Hfuel.
  - destruct s as [|c s']; [done|]. cbn [scan_once String.length] in *.
    destruct (Ascii.eqb c quote).
    { pose proof (scanstring_no_overflow s') as Hno.
      destruct (scanstring s') as [[str rest]|e] eqn:Hs'; [|done].
      apply scanstring_shorter in Hs'. cbn. split; [done|].
      intros; simplify_eq. lia. }
    destruct (Ascii.eqb c "{").
    { destruct (skip_ws s') as [|c2 s''] eqn:Hskip; [done|].
      apply skip_ws_cons_length in Hskip.
      destruct (Ascii.eqb c2 "}"); [split; [done|intros; simplify_eq; lia]|].
      destruct (Ascii.eqb c2 quote); [|done].
      destruct (IHobject s'' ltac:(lia)) as [Hno Hlen].
      destruct (object_items fuel s'') as [[pairs rest]|e]; [|done].
      specialize (Hlen _ _ eq_refl). cbn. split; [done|].
      intros; simplify_eq. lia. }
    destruct (Ascii.eqb c "[").
    { destruct (skip_ws s') as [|c2 s''] eqn:Hskip; [done|].
      apply skip_ws_cons_length in Hskip.
      destruct (Ascii.eqb c2 "]"); [split; [done|intros; simplify_eq; lia]|].
      destruct (IHarray (String c2 s'')
                  ltac:(cbn [String.length]; lia)) as [Hno Hlen].
      destruct (array_items fuel (String c2 s'')) as [[values rest]|e]; [|done].
      specialize (Hlen _ _ eq_refl). cbn [String.length] in Hlen. cbn.
      split; [done|]. intros; simplify_eq. lia. }
    destruct (scan_atom_length (String c s')) as [Hno Hlen].
    split; [done|]. intros o rest Ho. specialize (Hlen _ _ Ho).
    cbn [String.length] in Hlen. lia.
  - rewrite array_items_step.
    destruct (IHscan s ltac:(lia)) as [Hno Hlen].
    destruct (scan_once fuel s) as [[value s1]|e]; [|done].
    specialize (Hlen _ _ eq_refl). cbn [mbind result_bind].
    destruct (skip_ws s1) as [|nextchar s2] eqn:Hskip; [done|].
    apply skip_ws_cons_length in Hskip.
    destruct (Ascii.eqb nextchar "]"); [split; [done|intros; simplify_eq; lia]|].
    destruct (Ascii.eqb nextchar ","); [|done].
    pose proof (skip_ws_length s2) as Hskip2.
    destruct (IHarray (skip_ws s2) ltac:(lia)) as [Hno' Hlen'].
    destruct (array_items fuel (skip_ws s2)) as [[values rest]|e]; [|done].
    specialize (Hlen' _ _ eq_refl). cbn. split; [done|].
    intros; simplify_eq. lia.
  - rewrite object_items_step.
    pose proof (scanstring_no_overflow s) as Hno.
    destruct (scanstring s) as [[key s1]|e] eqn:Hkey; [|done].
    apply scanstring_shorter in Hkey. cbn [mbind result_bind].
    destruct (skip_ws s1) as [|colon s2] eqn:Hskip; [done|].
    apply skip_ws_cons_length in Hskip.
    destruct (Ascii.eqb colon ":"); [|done].
    pose proof (skip_ws_length s2) as Hskip2.
    destruct (IHscan (skip_ws s2) ltac:(lia)) as [Hno' Hlen'].
    destruct (scan_once fuel (skip_ws s2)) as [[value s3]|e]; [|done].
    specialize (Hlen' _ _ eq_refl). cbn [mbind result_bind].
    destruct (skip_ws s3) as [|nextchar s4] eqn:Hskip3; [done|].
    apply skip_ws_cons_length in Hskip3.
    destruct (Ascii.eqb nextchar "}"); [split; [done|intros; simplify_eq; lia]|].
    destruct (Ascii.eqb nextchar ","); [|done].
    destruct (skip_ws s4) as [|q s5] eqn:Hskip4; [done|].
    apply skip_ws_cons_length in Hskip4.
    destruct (Ascii.eqb q quote); [|done].
    destruct (IHobject s5 ltac:(lia)) as [Hno'' Hlen''].
    destruct (object_items fuel s5) as [[pairs rest]|e]; [|done].
    specialize (Hlen'' _ _ eq_refl). cbn. split; [done|].
    intros; simplify_eq. lia.
Qed.

(** [loads] never runs out of fuel. *)
Lemma loads_no_overflow (s : string) : loads s ≠ Raise RecursionError.
Proof.
  enough (no_overflow (loads s)) as Hno by (by intros Heq; rewrite Heq in Hno).
  unfold loads. pose proof (skip_ws_length s) as Hskip.
  destruct (fuel_suffices_all (S (2 * String.length s))) as [Hscan _].
  destruct (Hscan (skip_ws s) ltac:(lia)) as [Hno _].
  destruct (scan_once _ (skip_ws s)) as [[o rest]|e]; [|done].
  cbn. by destruct (skip_ws rest).
Qed.

(** * The data files *)

Lemma dict_map_to_list {A} (m : gmap string A) : dict (map_to_list m) = m.
Proof.
  unfold dict. symmetry. apply list_to_map_flip.
  by rewrite reverse_Permutation.
Qed.

Lemma json_to_listing_to_json (prop : Listing) :
  json_to_listing (listing_to_json prop) = Ok prop.
Proof. by destruct prop as [i n p l u [z|s] [img|] d t]. Qed.

Lemma json_to_timeline_to_json (snapshots : list Listing) :
  json_to_timeline (JList (listing_to_json <$> snapshots)) = Ok snapshots.
Proof.
  cbn [json_to_timeline]. induction snapshots as [|prop snapshots IH]; [done|].
  cbn [fmap list_fmap mapM]. rewrite json_to_listing_to_json.
  rewrite result_bind_Ok. fold (fmap (M:=list) listing_to_json snapshots).
  by rewrite IH.
Qed.

Lemma read_values_fmap {A} (f : json → result A) (g : A → json)
    (m : gmap string A) :
  (∀ a, f (g a) = Ok a) → read_values f (g <$> m) = Ok m.
Proof.
  intros Hfg. unfold read_values. rewrite decide_True.
  - f_equal. apply map_eq. intros k. rewrite lookup_omap, lookup_fmap.
    destruct (m !! k) as [a|]; [|done]. cbn. by rewrite Hfg.
  - intros k o. rewrite lookup_fmap. destruct (m !! k) as [a|]; [|done].
    intros [= <-]. by rewrite Hfg.
Qed.

Lemma json_to_snapshot_to_json (data : Snapshot) :
  json_to_snapshot (snapshot_to_json data) = Ok data.
Proof.
  unfold json_to_snapshot, snapshot_to_json. rewrite dict_map_to_list.
  apply read_values_fmap, json_to_listing_to_json.
Qed.

Lemma json_to_history_to_json (history : History) :
  json_to_history (history_to_json history) = Ok history.
Proof.
  unfold json_to_history, history_to_json. rewrite dict_map_to_list.
  by apply (read_values_fmap json_to_timeline), json_to_timeline_to_json.
Qed.

(** [FileNotFoundError] does not leave the two loaders. *)
Lemma load_previous_data_found (fs : FileSystem) :
  load_previous_data fs ≠ Raise FileNotFoundError.
Proof.
  unfold load_previous_data. cbn zeta.
  by destruct (_ ≫= _) as [data|[]].
Qed.

Lemma load_history_found (fs : FileSystem) :
  load_history fs ≠ Raise FileNotFoundError.
Proof.
  unfold load_history. cbn zeta.
  by destruct (_ ≫= _) as [history|[]].
Qed.

Lemma load_previous_data_save_data (fs : FileSystem) (data : Snapshot) :
  load_previous_data (save_data fs data None).1 = Ok data.
Proof.
  unfold load_previous_data, read_text, save_data, dump_to. cbn [fst].
  rewrite lookup_insert_eq, result_bind_Ok, loads_dumps, result_bind_Ok.
  by rewrite json_to_snapshot_to_json.
Qed.

Lemma load_history_save_history (fs : FileSystem) (history : History) :
  load_history (save_history fs history None).1 = Ok history.
Proof.
  unfold load_history, read_text, save_history, dump_to. cbn [fst].
  rewrite lookup_insert_eq, result_bind_Ok, loads_dumps, result_bind_Ok.
  by rewrite json_to_history_to_json.
Qed.

(** C8.  Saving a snapshot or a history and loading it back gives the
    mapping that was saved: every listing with all its strings (as the
    UTF-8 text they are, whatever the characters) and its price, an
    integer of any size. *)
Theorem save_then_load (fs : FileSystem) (data : Snapshot) (history : History) :
  (save_data fs data None).2 = Ok () ∧
  load_previous_data (save_data fs data None).1 = Ok data ∧
  (save_history fs history None).2 = Ok () ∧
  load_history (save_history fs history None).1 = Ok history.
Proof.
  split_and!; [done|apply load_previous_data_save_data|done|
               apply load_history_save_history].
Qed.
(** * Saving in place *)

Lemma dump_to_other (fs : FileSystem) (path other : string) (o : json)
    (room : option nat) :
  other ≠ path → (dump_to fs path o room).1 !! other = fs !! other.
Proof.
  intros Hne. unfold dump_to. destruct room as [n|]; [case_decide|];
    cbn [fst]; by rewrite lookup_insert_ne.
Qed.

Lemma dump_to_fails (fs : FileSystem) (path : string) (o : json) (n : nat) :
  (n < String.length (dumps o))%nat →
  dump_to fs path o (Some n)
  = (<[path := substring 0 n (dumps o)]> fs, Raise OSError).
Proof. intros Hn. unfold dump_to. by rewrite decide_True. Qed.

(** C6, as the code has it.  [save_data] and [save_history] write into
    the data file itself.  When the device takes the whole text, the file
    holds it and no other file has changed; when the device takes only
    the first [n] characters, the call raises, the file holds those [n]
    characters of the new text in place of what it held before, and no
    other file has changed. *)
Theorem save_writes_in_place (fs : FileSystem) (data : Snapshot)
    (history : History) (n : nat) :
  (n < String.length (dumps (snapshot_to_json data)))%nat →
  (n < String.length (dumps (history_to_json history)))%nat →
  (save_data fs data (Some n)).2 = Raise OSError ∧
  (save_data fs data (Some n)).1 !! data_file
    = Some (substring 0 n (dumps (snapshot_to_json data))) ∧
  (save_history fs history (Some n)).2 = Raise OSError ∧
  (save_history fs history (Some n)).1 !! history_file
    = Some (substring 0 n (dumps (history_to_json history))) ∧
  (save_data fs data None).1 !! data_file
    = Some (dumps (snapshot_to_json data)) ∧
  (save_history fs history None).1 !! history_file
    = Some (dumps (history_to_json history)) ∧
  (∀ room other, other ≠ data_file →
     (save_data fs data room).1 !! other = fs !! other) ∧
  (∀ room other, other ≠ history_file →
     (save_history fs history room).1 !! other = fs !! other).
Proof.
  intros Hd Hh. unfold save_data, save_history.
  rewrite !dump_to_fails by done. cbn [fst snd]. rewrite !lookup_insert_eq.
  split_and!; try done.
  - unfold dump_to. cbn [fst]. by rewrite lookup_insert_eq.
  - unfold dump_to. cbn [fst]. by rewrite lookup_insert_eq.
  - intros room other Hne. by apply dump_to_other.
  - intros room other Hne. by apply dump_to_other.
Qed.

Lemma save_writes_in_place_witness :
  (40 < String.length (dumps (snapshot_to_json current_sample)))%nat ∧
  (40 < String.length (dumps (history_to_json history_sample)))%nat ∧
  (save_history files_sample history_sample (Some 40)).2 = Raise OSError ∧
  (save_history files_sample history_sample (Some 40)).1 !! history_file
    = Some (substring 0 40 (dumps (history_to_json history_sample))) ∧
  (save_data files_sample current_sample (Some 40)).1 !! history_file
    = files_sample !! history_file.
Proof.
  assert (Hd : (40 < String.length (dumps (snapshot_to_json current_sample)))%nat)
    by by_evaluation.
  assert (Hh : (40 < String.length (dumps (history_to_json history_sample)))%nat)
    by by_evaluation.
  destruct (save_writes_in_place files_sample current_sample history_sample
              40 Hd Hh) as (_ & _ & Hr & Hfile & _ & _ & Hother & _).
  split_and!; [done..|]. by apply Hother.
Defined.

(** C6, as the claim has it, fails: a write of the history that the
    device cuts short leaves the start of the new text where the history
    of the earlier cycle was, and that file no longer loads.  The same
    holds for the snapshot file. *)
Lemma failed_save_destroys_previous_file :
  let fs := files_sample in
  let fs_history := (save_history fs history_sample (Some 40)).1 in
  let fs_data := (save_data fs current_sample (Some 40)).1 in
  is_Ok (load_history fs) ∧ is_Ok (load_previous_data fs) ∧
  (save_history fs history_sample (Some 40)).2 = Raise OSError ∧
  fs_history !! history_file ≠ fs !! history_file ∧
  load_history fs_history = Raise JSONDecodeError ∧
  (save_data fs current_sample (Some 40)).2 = Raise OSError ∧
  fs_data !! data_file ≠ fs !! data_file ∧
  load_previous_data fs_data = Raise JSONDecodeError.
Proof.
  cbn zeta. split_and!; try by_evaluation; by vm_compute.
Qed.
(** * One cycle *)

Lemma dump_to_result (fs : FileSystem) (path : string) (o : json)
    (room : option nat) :
  dump_to fs path o room = (<[path := dumps o]> fs, Ok ()) ∨
  (dump_to fs path o room).2 = Raise OSError.
Proof.
  unfold dump_to. destruct room as [n|]; [case_decide|]; auto.
Qed.

(** ** The report writers leave the two data files alone *)

(** No file a report writer opens is one of the two data files. *)
Lemma report_path_data (file : ReportFile) :
  report_path file ≠ data_file ∧ report_path file ≠ history_file.
Proof.
  destruct file as [| | | |property_id]; split; discriminate.
Qed.

Lemma written_lookup (fs : FileSystem) (writes : list (ReportFile * string))
    (path : string) :
  (∀ file, report_path file ≠ path) →
  written fs writes !! path = fs !! path.
Proof.
  intros Hpath. unfold written. revert fs.
  induction writes as [|[file text] writes IH]; intros fs; [done|].
  cbn [foldl fst snd]. rewrite IH. by apply lookup_insert_ne.
Qed.

Lemma write_reports_lookup (writers : Writers) (fs : FileSystem) (d : Diff)
    (current_data : Snapshot) (history : History) (path : string) :
  (∀ file, report_path file ≠ path) →
  (write_reports writers fs d current_data history).1 !! path = fs !! path.
Proof.
  intros Hpath.
  assert (∀ fs0 writer, (call fs0 writer).1 !! path = fs0 !! path) as Hcall.
  { intros fs0 writer. by apply written_lookup. }
  unfold write_reports.
  set (alerts := if decide (new_properties d ≠ [] ∨ price_changes d ≠ [])
                 then call fs _ else (fs, Ok ())).
  assert (alerts.1 !! path = fs !! path) as Halerts
    by (subst alerts; by case_decide).
  destruct alerts as [fs1 [[]|e]]; cbn [fst] in *; [|done].
  rewrite <- Halerts. clear Halerts.
  set (removed := if decide (removed_properties d ≠ [])
                  then call fs1 _ else (fs1, Ok ())).
  assert (removed.1 !! path = fs1 !! path) as Hremoved
    by (subst removed; by case_decide).
  destruct removed as [fs2 [[]|e]]; cbn [fst] in *; [|done].
  rewrite <- Hremoved. clear Hremoved.
  pose proof (Hcall fs2 (λ fs, save_complete_catalog writers fs current_data))
    as Hcatalog.
  destruct (call fs2 _) as [fs3 [[]|e]]; cbn [fst] in *; [|done].
  rewrite <- Hcatalog. apply Hcall.
Qed.

Lemma write_reports_data (writers : Writers) (fs : FileSystem) (d : Diff)
    (current_data : Snapshot) (history : History) :
  (write_reports writers fs d current_data history).1 !! data_file
  = fs !! data_file ∧
  (write_reports writers fs d current_data history).1 !! history_file
  = fs !! history_file.
Proof.
  split; apply write_reports_lookup; intros file; apply report_path_data.
Qed.

(** The loaders read their own file only. *)
Lemma load_previous_data_lookup (fs fs' : FileSystem) :
  fs' !! data_file = fs !! data_file →
  load_previous_data fs' = load_previous_data fs.
Proof. intros Hfile. unfold load_previous_data, read_text. by rewrite Hfile. Qed.

Lemma load_history_lookup (fs fs' : FileSystem) :
  fs' !! history_file = fs !! history_file →
  load_history fs' = load_history fs.
Proof. intros Hfile. unfold load_history, read_text. by rewrite Hfile. Qed.

(** ** The ways a cycle ends *)

(** A cycle that passes the guard ends in the exception of a report
    writer, with what the writers had written, or in a failed write of a
    data file, or it has written both data files in full, behind the
    reports, and closes with the diff. *)
Lemma check_and_notify_outcomes (writers : Writers) (fs : FileSystem)
    (fetched P : Snapshot) (H : History) (device : Device) :
  load_previous_data fs = Ok P → load_history fs = Ok H → fetched ≠ ∅ →
  let reports := write_reports writers fs (detect P fetched H).1 fetched
                   (detect P fetched H).2 in
  (∃ e, reports.2 = Raise e ∧
        check_and_notify writers fs fetched device = (reports.1, Raise e)) ∨
  (reports.2 = Ok () ∧
   (check_and_notify writers fs fetched device).2 = Raise OSError ∧
   (device data_file = None →
    load_previous_data (check_and_notify writers fs fetched device).1
    = Ok fetched)) ∨
  (reports.2 = Ok () ∧
   check_and_notify writers fs fetched device
   = (<[history_file := dumps (history_to_json (detect P fetched H).2)]>
        (<[data_file := dumps (snapshot_to_json fetched)]> reports.1),
      Ok (Found (detect P fetched H).1))).
Proof.
  intros HP HH Hne. cbn zeta. unfold check_and_notify. rewrite HP, HH.
  rewrite decide_False by done. destruct (detect P fetched H) as [d H'].
  cbn [fst snd].
  destruct (write_reports writers fs d fetched H') as [fs1 [[]|e]];
    cbn [fst snd]; [|left; by exists e].
  right. unfold save_data, save_history.
  destruct (dump_to_result fs1 data_file (snapshot_to_json fetched)
              (device data_file)) as [Hdata|Hfail].
  - rewrite Hdata.
    destruct (dump_to_result
                (<[data_file := dumps (snapshot_to_json fetched)]> fs1)
                history_file (history_to_json H') (device history_file))
      as [->|Hfail]; [by right|].
    pose proof (dump_to_other
                  (<[data_file := dumps (snapshot_to_json fetched)]> fs1)
                  history_file data_file (history_to_json H')
                  (device history_file)) as Hother.
    destruct (dump_to _ history_file _ _) as [fs' [[]|e]]; [done|].
    left. injection Hfail as ->. split_and!; [done..|]. intros _.
    cbn [fst] in *. unfold load_previous_data, read_text.
    rewrite Hother by done.
    apply (load_previous_data_save_data fs1 fetched).
  - destruct (dump_to fs1 data_file _ _) as [fs' [[]|e]] eqn:Hdump; [done|].
    left. injection Hfail as ->. split_and!; [done..|]. intros Hroom.
    rewrite Hroom in Hdump. unfold dump_to in Hdump. done.
Qed.

(** A cycle with an empty fetch writes nothing. *)
Lemma check_and_notify_empty (writers : Writers) (fs : FileSystem)
    (device : Device) :
  (check_and_notify writers fs ∅ device).1 = fs.
Proof.
  unfold check_and_notify.
  destruct (load_previous_data fs) as [previous_data|e]; [|done].
  destruct (load_history fs) as [history|e]; [|done].
  by rewrite decide_True.
Qed.

(** What the two files hold after a cycle that returned. *)
Lemma check_and_notify_files (writers : Writers) (fs : FileSystem)
    (fetched P : Snapshot) (H : History) (device : Device) :
  load_previous_data fs = Ok P → load_history fs = Ok H →
  is_Ok (check_and_notify writers fs fetched device).2 →
  load_previous_data (check_and_notify writers fs fetched device).1
  = Ok (if decide (fetched = ∅) then P else fetched) ∧
  load_history (check_and_notify writers fs fetched device).1
  = Ok (if decide (fetched = ∅) then H else (detect P fetched H).2).
Proof.
  intros HP HH Hok. case_decide as Hempty.
  - subst fetched. by rewrite check_and_notify_empty.
  - destruct (check_and_notify_outcomes writers fs fetched P H device HP HH
                Hempty) as [(e & _ & Hcycle)|[(_ & Hcycle & _)|[_ Hcycle]]];
      [by rewrite Hcycle in Hok..|].
    rewrite Hcycle. cbn [fst]. split.
    + unfold load_previous_data, read_text.
      rewrite lookup_insert_ne by done.
      apply (load_previous_data_save_data _ fetched).
    + apply (load_history_save_history
               (<[data_file := dumps (snapshot_to_json fetched)]> _)).
Qed.

Lemma detect_history_prefix (P C : Snapshot) (H : History) (k : string) :
  default [] (H !! k) `prefix_of` default [] ((detect P C H).2 !! k).
Proof.
  rewrite detect_history. destruct (C !! k) as [prop|]; [|done].
  by apply prefix_app_r.
Qed.


(** C7.  A data file that does not exist loads as the empty mapping, not
    as an error, for the snapshot and for the history alike; so the first
    run ever compares the fetch with [{}] against a history [{}]: a diff
    it closes with is the one against these, which it does close with
    when the report writers return and both writes are taken; in this
    diff every fetched listing is new, nothing has changed its price,
    nothing is removed, and the history it builds has one record per
    fetched id. *)
Theorem absent_file_loads_empty (writers : Writers) (fs : FileSystem)
    (fetched : Snapshot) (device : Device) :
  (fs !! data_file = None → load_previous_data fs = Ok ∅) ∧
  (fs !! history_file = None → load_history fs = Ok ∅) ∧
  (fs !! data_file = None → fs !! history_file = None →
   (∀ d, (check_and_notify writers fs fetched device).2 = Ok (Found d) →
         d = (detect ∅ fetched ∅).1) ∧
   ((write_reports writers fs (detect ∅ fetched ∅).1 fetched
       (detect ∅ fetched ∅).2).2 = Ok () →
    fetched ≠ ∅ → device data_file = None → device history_file = None →
    (check_and_notify writers fs fetched device).2
    = Ok (Found (detect ∅ fetched ∅).1))) ∧
  (∀ prop, prop ∈ new_properties (detect ∅ fetched ∅).1
           ↔ ∃ k, fetched !! k = Some prop) ∧
  price_changes (detect ∅ fetched ∅).1 = [] ∧
  removed_properties (detect ∅ fetched ∅).1 = [] ∧
  (∀ k, (detect ∅ fetched ∅).2 !! k = (λ prop, [prop]) <$> fetched !! k).
Proof.
  assert (Hd : fs !! data_file = None → load_previous_data fs = Ok ∅)
    by (unfold load_previous_data, read_text; by intros ->).
  assert (Hh : fs !! history_file = None → load_history fs = Ok ∅)
    by (unfold load_history, read_text; by intros ->).
  split_and!; [done..| | | | |].
  - intros Hdata Hhist. split.
    + intros d Hfound. destruct (decide (fetched = ∅)) as [->|Hne].
      { unfold check_and_notify in Hfound.
        rewrite (Hd Hdata), (Hh Hhist), decide_True in Hfound by done.
        done. }
      destruct (check_and_notify_outcomes writers fs fetched ∅ ∅ device
                  (Hd Hdata) (Hh Hhist) Hne)
        as [(e & _ & Hcycle)|[(_ & Hcycle & _)|[_ Hcycle]]];
        rewrite Hcycle in Hfound; [done..|]. by injection Hfound as <-.
    + intros Hreports Hne Hroom Hroom'. unfold check_and_notify.
      rewrite (Hd Hdata), (Hh Hhist), decide_False by done.
      destruct (detect ∅ fetched ∅) as [d H']. cbn [fst snd] in *.
      destruct (write_reports writers fs d fetched H') as [fs1 r].
      cbn [snd] in Hreports. subst r. rewrite Hroom, Hroom'. done.
  - intros prop. rewrite elem_of_new_properties. split.
    + intros (k & Hk & _). eauto.
    + intros [k Hk]. exists k. by rewrite lookup_empty.
  - apply elem_of_nil_inv. intros pc.
    rewrite elem_of_price_changes. intros (k & prop & old & _ & Hold & _).
    by rewrite lookup_empty in Hold.
  - apply elem_of_nil_inv. intros prop.
    rewrite elem_of_removed_properties. intros (k & Hold & _).
    by rewrite lookup_empty in Hold.
  - intros k. rewrite detect_history, lookup_empty.
    by destruct (fetched !! k).
Qed.

Lemma absent_file_loads_empty_witness :
  let fs : FileSystem := ∅ in
  fs !! data_file = None ∧ fs !! history_file = None ∧
  first_fetch_sample ≠ ∅ ∧
  load_previous_data fs = Ok ∅ ∧ load_history fs = Ok ∅ ∧
  (check_and_notify writers_sample fs first_fetch_sample reliable).2
  = Ok (Found (detect ∅ first_fetch_sample ∅).1).
Proof.
  intros fs.
  assert (Hd : fs !! data_file = None) by done.
  assert (Hh : fs !! history_file = None) by done.
  assert (Hne : first_fetch_sample ≠ ∅) by by_evaluation.
  destruct (absent_file_loads_empty writers_sample fs first_fetch_sample
              reliable) as (H1 & H2 & H3 & _).
  destruct (H3 Hd Hh) as [_ Hfound].
  split_and!; [done|done|done|by apply H1|by apply H2|].
  apply Hfound; [by vm_compute|done..].
Defined.

(** C3.  When the fetch returned an empty mapping the cycle stops at the
    guard: no file is written, so the stored snapshot and the stored
    history are what they were to the character, and the call ends in the
    failure message (or in the exception of a file that does not load),
    never in a diff. *)
Theorem empty_fetch_aborts (writers : Writers) (fs : FileSystem)
    (device : Device) :
  (check_and_notify writers fs ∅ device).1 = fs ∧
  (∀ d, (check_and_notify writers fs ∅ device).2 ≠ Ok (Found d)) ∧
  (is_Ok (load_previous_data fs) → is_Ok (load_history fs) →
   (check_and_notify writers fs ∅ device).2 = Ok NoDataFetched).
Proof.
  unfold check_and_notify.
  destruct (load_previous_data fs) as [previous_data|e]; [|done].
  destruct (load_history fs) as [history|e]; [|done].
  by rewrite decide_True.
Qed.

Lemma empty_fetch_aborts_witness :
  is_Ok (load_previous_data files_sample) ∧
  is_Ok (load_history files_sample) ∧
  (check_and_notify writers_sample files_sample ∅ reliable).1
  = files_sample ∧
  (check_and_notify writers_sample files_sample ∅ reliable).2
  = Ok NoDataFetched.
Proof.
  assert (Hd : is_Ok (load_previous_data files_sample)) by by_evaluation.
  assert (Hh : is_Ok (load_history files_sample)) by by_evaluation.
  destruct (empty_fetch_aborts writers_sample files_sample reliable)
    as (H1 & _ & H3).
  split_and!; auto.
Defined.

(** C4.  The detection pass of a cycle only adds to the history: for
    every id, what the history held before the pass is a prefix of what
    it holds afterwards, so nothing is removed, reordered or cut and no
    timeline gets shorter, an id that had a timeline keeps one, and the
    timeline of every id of the fetch is longer by exactly one. *)
Theorem history_only_grows (P C : Snapshot) (H : History) (k : string) :
  let H' := (detect P C H).2 in
  default [] (H !! k) `prefix_of` default [] (H' !! k) ∧
  (length (default [] (H !! k)) ≤ length (default [] (H' !! k)))%nat ∧
  (is_Some (H !! k) → is_Some (H' !! k)) ∧
  (is_Some (C !! k) →
   length (default [] (H' !! k)) = S (length (default [] (H !! k)))).
Proof.
  cbn zeta. pose proof (detect_history_prefix P C H k) as Hpre.
  split_and!; [done|by apply prefix_length| |].
  - rewrite detect_history. by destruct (C !! k).
  - intros [prop Hk]. rewrite detect_history, Hk. cbn.
    rewrite length_app. cbn. lia.
Qed.

Lemma history_only_grows_witness :
  is_Some (history_sample !! "A") ∧ is_Some (current_sample !! "A") ∧
  [listing "A" 1000000 "t0"]
    `prefix_of` default [] ((detect previous_sample current_sample
                               history_sample).2 !! "A") ∧
  length (default [] ((detect previous_sample current_sample
                         history_sample).2 !! "A")) = 2%nat.
Proof.
  assert (is_Some (history_sample !! "A")) as HH by by_evaluation.
  assert (is_Some (current_sample !! "A")) as HC by by_evaluation.
  destruct (history_only_grows previous_sample current_sample history_sample
              "A") as (Hpre & _ & _ & Hlen).
  split_and!; [done|done|exact Hpre|exact (Hlen HC)].
Defined.


(** * The detection pass on objects *)

Section objects.
Context (previous_data : Snapshot).
Implicit Types (st : ObjState) (l : list (string * nat)) (k : string).

Lemma new_dict_fresh (store : Store) (items : Listing) :
  store !! (new_dict store items).1 = None.
Proof. cbn. apply not_elem_of_dom, is_fresh. Qed.

(** A step only adds a dictionary to the store. *)
Lemma detect_step_obj_store st entry :
  os_store st ⊆ os_store (detect_step_obj previous_data st entry).
Proof.
  destruct entry as [k prop]. unfold detect_step_obj.
  destruct (os_store st !! prop) as [items|]; [|done].
  pose proof (new_dict_fresh (os_store st) items) as Hfresh.
  cbn in *. destruct (previous_data !! k); [case_decide|]; cbn;
    by apply insert_subseteq.
Qed.

Lemma detect_loop_obj_store l st :
  os_store st ⊆ os_store (foldl (detect_step_obj previous_data) st l).
Proof.
  revert st. induction l as [|entry l IH]; intros st; [done|].
  cbn [foldl]. etrans; [apply detect_step_obj_store|apply IH].
Qed.

(** A step for another id leaves the timeline of [k] alone. *)
Lemma detect_step_obj_history_ne st k' prop k :
  k' ≠ k →
  os_history (detect_step_obj previous_data st (k', prop)) !! k
  = os_history st !! k.
Proof.
  intros Hne. unfold detect_step_obj.
  destruct (os_store st !! prop) as [items|]; [|done]. cbn.
  assert (alter (λ snapshots, snapshots ++ [fresh (dom (os_store st))]) k'
            match os_history st !! k' with
            | Some _ => os_history st
            | None => <[k' := []]> (os_history st)
            end !! k = os_history st !! k) as Halter.
  { rewrite lookup_alter_ne by done.
    destruct (os_history st !! k'); [done|]. by rewrite lookup_insert_ne. }
  destruct (previous_data !! k'); [case_decide|]; done.
Qed.

Lemma detect_loop_obj_history_ne l st k :
  k ∉ l.*1 →
  os_history (foldl (detect_step_obj previous_data) st l) !! k
  = os_history st !! k.
Proof.
  revert st. induction l as [|[k' prop] l IH]; intros st Hk; [done|].
  cbn [fmap list_fmap fst] in Hk. apply not_elem_of_cons in Hk as [Hne Hk].
  cbn [foldl]. rewrite IH by done. by apply detect_step_obj_history_ne.
Qed.

(** The step for a listing that has a dictionary: a new dictionary
    with the same items goes to the end of the timeline. *)
Lemma detect_step_obj_copy st k prop items :
  os_store st !! prop = Some items →
  let st' := detect_step_obj previous_data st (k, prop) in
  let copied := fresh (dom (os_store st)) in
  os_history st' !! k = Some (default [] (os_history st !! k) ++ [copied]) ∧
  os_store st' = <[copied := items]> (os_store st).
Proof.
  intros Hprop. cbn zeta. unfold detect_step_obj. rewrite Hprop. cbn.
  assert (alter (λ snapshots, snapshots ++ [fresh (dom (os_store st))]) k
            match os_history st !! k with
            | Some _ => os_history st
            | None => <[k := []]> (os_history st)
            end !! k
          = Some (default [] (os_history st !! k)
                  ++ [fresh (dom (os_store st))])) as Halter.
  { rewrite lookup_alter_eq.
    destruct (os_history st !! k) as [snapshots|] eqn:Hk.
    - by rewrite Hk.
    - by rewrite lookup_insert_eq. }
  destruct (previous_data !! k); [case_decide|]; done.
Qed.
End objects.

Section object_pass.
Context (previous_data : Snapshot) (current_data : gmap string nat).
Context (store : Store) (history : gmap string (list nat)).
Let st := detect_obj previous_data current_data store history.

Lemma detect_obj_store : store ⊆ os_store st.
Proof.
  apply (detect_loop_obj_store previous_data (map_to_list current_data)
           (mkObj store history [] [])).
Qed.

(** The timeline of an id that was not fetched is left alone. *)
Lemma detect_obj_absent (k : string) :
  current_data !! k = None → os_history st !! k = history !! k.
Proof.
  intros Hk. unfold st, detect_obj.
  rewrite detect_loop_obj_history_ne; [done|].
  intros [[k' r] [-> Hin]]%list_elem_of_fmap.
  apply elem_of_map_to_list in Hin. cbn in *. congruence.
Qed.

(** The timeline of a fetched id gets one more reference, to a
    dictionary that did not exist before the pass and holds the items of
    the fetched one. *)
Lemma detect_obj_entry (k : string) (prop : nat) (items : Listing) :
  current_data !! k = Some prop → store !! prop = Some items →
  ∃ copied,
    os_history st !! k = Some (default [] (history !! k) ++ [copied]) ∧
    store !! copied = None ∧
    os_store st !! copied = Some items.
Proof.
  intros Hk Hitems. unfold st, detect_obj.
  pose proof (NoDup_fst_map_to_list current_data) as Hnd.
  apply elem_of_map_to_list, list_elem_of_split in Hk as (l1 & l2 & Hl).
  rewrite Hl in Hnd. rewrite fmap_app in Hnd. cbn [fmap list_fmap fst] in Hnd.
  apply NoDup_app in Hnd as (_ & Hk1 & [Hk2 _]%NoDup_cons).
  rewrite Hl, foldl_app. cbn [foldl].
  set (st1 := foldl (detect_step_obj previous_data)
                    (mkObj store history [] []) l1).
  assert (store ⊆ os_store st1) as Hsub1
    by apply (detect_loop_obj_store previous_data l1
                (mkObj store history [] [])).
  assert (os_store st1 !! prop = Some items) as Hprop1
    by by eapply lookup_weaken.
  destruct (detect_step_obj_copy previous_data st1 k prop items Hprop1)
    as [Hhist Hst].
  set (st2 := detect_step_obj previous_data st1 (k, prop)) in *.
  set (copied := fresh (dom (os_store st1))) in *.
  exists copied. split_and!.
  - rewrite detect_loop_obj_history_ne by done. rewrite Hhist.
    unfold st1. rewrite detect_loop_obj_history_ne; [done|].
    intros Hin. apply (Hk1 k Hin). cbn. left.
  - destruct (store !! copied) as [other|] eqn:Hcopied; [|done].
    destruct (is_fresh (dom (os_store st1))). fold copied.
    apply elem_of_dom. exists other. by eapply lookup_weaken.
  - eapply lookup_weaken;
      [|apply (detect_loop_obj_store previous_data l2 st2)].
    rewrite Hst. apply lookup_insert_eq.
Qed.
End object_pass.

Lemma items_of_weaken (store store' : Store) (refs : list nat) :
  store ⊆ store' → Forall (λ r, is_Some (store !! r)) refs →
  items_of store' refs = items_of store refs.
Proof.
  intros Hsub. induction 1 as [|r refs [items Hr] _ IH]; [done|].
  unfold items_of in *. cbn [omap list_omap].
  rewrite Hr, (lookup_weaken _ _ _ _ Hr Hsub). by rewrite IH.
Qed.

Lemma items_of_snoc (store : Store) (refs : list nat) (r : nat)
    (items : Listing) :
  store !! r = Some items →
  items_of store (refs ++ [r]) = items_of store refs ++ [items].
Proof.
  intros Hr. unfold items_of. rewrite omap_app. cbn [omap list_omap].
  by rewrite Hr.
Qed.

(** The pass on objects, read through the store it leaves, builds the
    history that the pass on values builds from the items. *)
Theorem detect_obj_history (previous_data : Snapshot)
    (current_data : gmap string nat) (store : Store)
    (history : gmap string (list nat)) :
  allocated store current_data history →
  let st := detect_obj previous_data current_data store history in
  history_of (os_store st) (os_history st)
  = (detect previous_data (snapshot_of store current_data)
            (history_of store history)).2.
Proof.
  intros [Hcurrent Hhistory]. cbn zeta. apply map_eq. intros k.
  pose proof (detect_obj_store previous_data current_data store history)
    as Hsub.
  set (st := detect_obj previous_data current_data store history) in *.
  assert (Hold : ∀ refs, history !! k = Some refs →
                         items_of (os_store st) refs = items_of store refs).
  { intros refs Hrefs. apply items_of_weaken; [done|].
    by apply (Hhistory k). }
  rewrite detect_history. unfold history_of, snapshot_of.
  rewrite !lookup_fmap, lookup_omap.
  destruct (current_data !! k) as [prop|] eqn:Hk; cbn [mbind option_bind].
  - destruct (Hcurrent _ _ Hk) as [items Hitems]. rewrite Hitems.
    destruct (detect_obj_entry previous_data current_data store history
                k prop items Hk Hitems) as (copied & Hhist & _ & Hcopied).
    fold st in Hhist, Hcopied. rewrite Hhist. cbn [fmap option_fmap option_map].
    rewrite (items_of_snoc _ _ _ _ Hcopied). do 2 f_equal.
    destruct (history !! k) as [refs|] eqn:Hrefs; cbn; [by apply Hold|done].
  - pose proof (detect_obj_absent previous_data current_data store history
                  k Hk) as Habsent. fold st in Habsent. rewrite Habsent.
    destruct (history !! k) as [refs|] eqn:Hrefs; cbn; [|done].
    f_equal. by apply Hold.
Qed.

Lemma detect_loop_obj_lists (previous_data : Snapshot) (store : Store)
    (l : list (string * nat)) (st : ObjState) :
  store ⊆ os_store st → Forall (λ kv, is_Some (store !! kv.2)) l →
  os_new (foldl (detect_step_obj previous_data) st l)
  = os_new st ++ (filter (λ kv, previous_data !! kv.1 = None) l).*2 ∧
  os_changes (foldl (detect_step_obj previous_data) st l)
  = os_changes st
    ++ omap (λ kv, store !! kv.2 ≫= λ items,
                   change_of previous_data (kv.1, items)) l.
Proof.
  intros Hsub Hl. revert st Hsub.
  induction Hl as [|[k prop] l [items Hitems] _ IH]; intros st Hsub.
  { cbn. by rewrite !app_nil_r. }
  cbn [foldl]. cbn [snd] in Hitems.
  pose proof (detect_step_obj_store previous_data st (k, prop)) as Hstep.
  destruct (IH (detect_step_obj previous_data st (k, prop))
              ltac:(by etrans)) as [-> ->].
  rewrite filter_cons. cbn [omap list_omap fst snd]. rewrite Hitems.
  cbn [mbind option_bind]. unfold detect_step_obj, change_of.
  rewrite (lookup_weaken _ _ _ _ Hitems Hsub). cbn [new_dict fst snd].
  destruct (previous_data !! k) as [old|] eqn:Hold.
  - rewrite (decide_False (P := Some old = None)) by done.
    case_decide; cbn; by rewrite <-?app_assoc.
  - rewrite (decide_True (P := None = None)) by done. cbn.
    by rewrite <-app_assoc.
Qed.

(** The pass on objects reports the listings and the price changes that
    the pass on values reports for the items. *)
Theorem detect_obj_alerts (previous_data : Snapshot)
    (current_data : gmap string nat) (store : Store)
    (history : gmap string (list nat)) :
  allocated store current_data history →
  let st := detect_obj previous_data current_data store history in
  let d := (detect previous_data (snapshot_of store current_data)
                   (history_of store history)).1 in
  (∀ prop, prop ∈ items_of (os_store st) (os_new st)
           ↔ prop ∈ new_properties d) ∧
  (∀ pc, pc ∈ os_changes st ↔ pc ∈ price_changes d).
Proof.
  intros [Hcurrent _]. cbn zeta.
  pose proof (detect_obj_store previous_data current_data store history)
    as Hsub.
  assert (Hl : Forall (λ kv : string * nat, is_Some (store !! kv.2))
                      (map_to_list current_data)).
  { apply Forall_forall. intros [k r] Hin%elem_of_map_to_list.
    by apply (Hcurrent k). }
  destruct (detect_loop_obj_lists previous_data store
              (map_to_list current_data) (mkObj store history [] [])
              ltac:(done) Hl) as [Hnew Hchanges].
  unfold detect_obj in *. rewrite Hnew, Hchanges. cbn [os_new os_changes app].
  set (st := foldl _ _ _) in *. split.
  - intros prop. rewrite elem_of_new_properties. unfold items_of, snapshot_of.
    rewrite list_elem_of_omap. setoid_rewrite lookup_omap. split.
    + intros (r & [[k r'] [-> [HP Hin]%list_elem_of_filter]]%list_elem_of_fmap
              & Hr).
      apply elem_of_map_to_list in Hin. cbn in *. exists k.
      rewrite Hin. cbn. destruct (Hcurrent _ _ Hin) as [items Hitems].
      rewrite Hitems. rewrite (lookup_weaken _ _ _ _ Hitems Hsub) in Hr.
      split; [congruence|done].
    + intros (k & Hk & HP). destruct (current_data !! k) as [r|] eqn:Hin;
        [|done]. cbn in Hk. exists r. split.
      * apply list_elem_of_fmap. exists (k, r). split; [done|].
        apply list_elem_of_filter. split; [done|].
        by apply elem_of_map_to_list.
      * by eapply lookup_weaken.
  - intros pc. rewrite elem_of_price_changes, list_elem_of_omap.
    unfold snapshot_of. setoid_rewrite lookup_omap. split.
    + intros ([k r] & Hin%elem_of_map_to_list & Hpc). cbn [fst snd] in Hpc.
      destruct (store !! r) as [items|] eqn:Hitems; [|done].
      cbn [mbind option_bind] in Hpc. unfold change_of in Hpc.
      cbn [fst snd] in Hpc.
      destruct (previous_data !! k) as [old|] eqn:Hold; [|done].
      case_decide; [|done]. exists k, items, old. rewrite Hin. cbn.
      split_and!; [done..|congruence].
    + intros (k & items & old & Hk & Hold & Hne & ->).
      destruct (current_data !! k) as [r|] eqn:Hin; [|done]. cbn in Hk.
      exists (k, r). split; [by apply elem_of_map_to_list|]. cbn [fst snd].
      rewrite Hk. cbn [mbind option_bind]. unfold change_of. cbn [fst snd].
      rewrite Hold. by rewrite decide_True.
Qed.



(** By contrast [new_properties] holds the dictionary of [current_data]
    itself: a change of that dictionary shows through this list. *)
Example new_properties_alias :
  let st := detect_obj previous_sample current_refs_sample store_sample
                       history_refs_sample in
  os_new st = [1%nat] ∧ current_refs_sample !! "N" = Some 1%nat ∧
  os_history st !! "A" = Some [2%nat; 3%nat] ∧
  os_history st !! "N" = Some [4%nat].
Proof. by vm_compute. Qed.

(** * [format_price] *)

Lemma all_digits_string_of_uint (d : Decimal.uint) :
  all_digits (NilEmpty.string_of_uint d) = true.
Proof. induction d; cbn; done. Qed.

(** The text of an integer: its digits, and a minus sign in front when
    it is negative. *)
Lemma intstr_digits (z : Z) :
  (0 ≤ z)%Z → all_digits (intstr z) = true ∧ intstr z ≠ "".
Proof.
  intros Hz. unfold intstr. destruct z as [|p|p]; [done| |lia].
  cbn [Z.to_int NilZero.string_of_int].
  pose proof (DecimalPos.Unsigned.to_uint_nonnil p) as Hnil.
  pose proof (all_digits_string_of_uint (Pos.to_uint p)) as Hd.
  destruct (Pos.to_uint p); done.
Qed.

Lemma intstr_negative (z : Z) :
  (z < 0)%Z → intstr z = String "-" (intstr (- z)).
Proof. intros Hz. destruct z as [|p|p]; [lia..|]. done. Qed.

Lemma joined_length (groups : list string) :
  Forall (λ group, String.length group = 3%nat) groups →
  String.length (joined groups) = (3 * length groups)%nat.
Proof.
  induction 1 as [|group groups Hgroup _ IH]; [done|].
  cbn [joined length]. rewrite string_app_length. lia.
Qed.

Lemma group_digits_cons (d : ascii) (ds : string) :
  group_digits (String d ds)
  = if decide (String.length ds ≠ 0 ∧ String.length ds `mod` 3 = 0)%nat
    then String d (String "," (group_digits ds))
    else String d (group_digits ds).
Proof. done. Qed.

(** The grouped digits are the digits cut into a first group of one to
    three and groups of three, with a comma in front of each of these. *)
Lemma group_digits_groups (ds : string) :
  ds ≠ "" →
  ∃ first rest,
    group_digits ds = first +:+ with_sep "," rest ∧
    ds = first +:+ joined rest ∧
    (1 ≤ String.length first ≤ 3)%nat ∧
    Forall (λ group, String.length group = 3%nat) rest.
Proof.
  induction ds as [|d ds IH]; [done|]. intros _.
  destruct ds as [|d' ds'].
  { exists (String d ""), []. cbn. split_and!; (done || lia). }
  destruct IH as (first & rest & Hgroup & Hds & Hfirst & Hrest); [done|].
  pose proof (joined_length rest Hrest) as Hlen.
  assert (String.length (String d' ds') `mod` 3
          = String.length first `mod` 3)%nat as Htotal.
  { rewrite Hds at 1. rewrite string_app_length, Hlen.
    by rewrite (Nat.mul_comm 3), Nat.Div0.mod_add. }
  rewrite group_digits_cons, Hgroup. case_decide as Hsep.
  - exists (String d ""), (first :: rest).
    assert (String.length first = 3%nat) as Hthree.
    { destruct Hsep as [_ Hmod]. rewrite Htotal in Hmod.
      destruct Hfirst as [? ?].
      destruct (String.length first) as [|[|[|[|n]]]]; cbn in *; (done || lia). }
    cbn [with_sep joined]. rewrite <-Hds. split_and!; try done; try (cbn; lia).
    by constructor.
  - exists (String d first), rest. rewrite Hds at 1.
    split_and!; try done; cbn [String.length]; [lia|].
    assert (String.length first ≠ 3%nat); [|lia].
    intros Hthree. apply Hsep. split; [done|]. by rewrite Htotal, Hthree.
Qed.

Lemma replace_app (old new : ascii) (s t : string) :
  replace old new (s +:+ t) = replace old new s +:+ replace old new t.
Proof.
  induction s as [|c s IH]; [done|].
  rewrite string_app_cons. cbn [replace]. by rewrite IH.
Qed.

Lemma remove_app (c : ascii) (s t : string) :
  remove c (s +:+ t) = remove c s +:+ remove c t.
Proof.
  induction s as [|c' s IH]; [done|].
  rewrite string_app_cons. cbn [remove]. rewrite IH.
  by destruct (Ascii.eqb c' c).
Qed.

Lemma all_digits_app (s t : string) :
  all_digits (s +:+ t) = all_digits s && all_digits t.
Proof.
  induction s as [|c s IH]; [done|].
  rewrite string_app_cons. cbn [all_digits]. rewrite IH.
  by destruct (is_digit c).
Qed.

(** A digit is neither a comma nor a space. *)
Lemma is_digit_plain (c : ascii) :
  is_digit c = true → Ascii.eqb c "," = false ∧ Ascii.eqb c " " = false.
Proof.
  intros Hc. split.
  - destruct (Ascii.eqb_spec c ","); [by subst|done].
  - destruct (Ascii.eqb_spec c " "); [by subst|done].
Qed.

Lemma replace_digits (s : string) :
  all_digits s = true → replace "," " " s = s.
Proof.
  induction s as [|c s IH]; [done|]. cbn [all_digits replace].
  intros [Hc Hs]%andb_prop. destruct (is_digit_plain c Hc) as [-> _].
  by rewrite IH.
Qed.

Lemma remove_digits (s : string) :
  all_digits s = true → remove " " s = s.
Proof.
  induction s as [|c s IH]; [done|]. cbn [all_digits remove].
  intros [Hc Hs]%andb_prop. destruct (is_digit_plain c Hc) as [_ ->].
  by rewrite IH.
Qed.

Lemma all_digits_joined (groups : list string) :
  all_digits (joined groups) = true →
  replace "," " " (with_sep "," groups) = with_sep " " groups ∧
  remove " " (with_sep " " groups) = joined groups.
Proof.
  induction groups as [|group groups IH]; [done|].
  cbn [joined with_sep replace remove]. rewrite all_digits_app.
  intros [Hgroup Hgroups]%andb_prop. destruct (IH Hgroups) as [IH1 IH2].
  change (Ascii.eqb "," ",") with true. change (Ascii.eqb " " " ") with true.
  cbn iota. rewrite replace_app, remove_app, IH1, IH2.
  by rewrite replace_digits, remove_digits.
Qed.

(** The digits of a price, grouped and with spaces for the commas. *)
Lemma replace_group_digits (ds : string) :
  ds ≠ "" → all_digits ds = true →
  ∃ first rest,
    replace "," " " (group_digits ds) = first +:+ with_sep " " rest ∧
    remove " " (first +:+ with_sep " " rest) = ds ∧
    ds = first +:+ joined rest ∧
    (1 ≤ String.length first ≤ 3)%nat ∧
    Forall (λ group, String.length group = 3%nat) rest.
Proof.
  intros Hne Hds.
  destruct (group_digits_groups ds Hne)
    as (first & rest & Hgroup & Hsplit & Hfirst & Hrest).
  rewrite Hsplit, all_digits_app in Hds.
  apply andb_prop in Hds as [Hd1 Hd2].
  destruct (all_digits_joined rest Hd2) as [Hreplace Hremove].
  exists first, rest. rewrite Hgroup, replace_app, remove_app.
  rewrite Hreplace, Hremove, replace_digits, remove_digits by done.
  by rewrite <-Hsplit.
Qed.

(** What [format_price] writes: the sign, the digits in groups with
    spaces, the currency. *)
Lemma format_price_parts (price : Z) :
  ∃ first rest,
    format_price price
    = sign_of price +:+ first +:+ with_sep " " rest +:+ " Kƒç" ∧
    remove " " (first +:+ with_sep " " rest) = first +:+ joined rest ∧
    intstr price = sign_of price +:+ first +:+ joined rest ∧
    (1 ≤ String.length first ≤ 3)%nat ∧
    Forall (λ group, String.length group = 3%nat) rest.
Proof.
  unfold format_price, format_comma, sign_of. case_decide as Hneg.
  - destruct (intstr_digits (- price) ltac:(lia)) as [Hds Hne].
    destruct (replace_group_digits _ Hne Hds)
      as (first & rest & Hreplace & Hremove & Hsplit & Hfirst & Hrest).
    exists first, rest. rewrite (intstr_negative price) by done.
    rewrite replace_app. change (replace "," " " " Kƒç") with " Kƒç".
    cbn [replace]. change (Ascii.eqb "-" ",") with false. cbn iota.
    rewrite Hreplace, Hremove, <-Hsplit.
    split; [by rewrite string_app_cons, string_app_assoc|done].
  - destruct (intstr_digits price ltac:(lia)) as [Hds Hne].
    destruct (replace_group_digits _ Hne Hds)
      as (first & rest & Hreplace & Hremove & Hsplit & Hfirst & Hrest).
    exists first, rest. rewrite replace_app, Hreplace, Hremove, <-Hsplit.
    change (replace "," " " " Kƒç") with " Kƒç".
    by rewrite string_app_assoc.
Qed.

Lemma string_app_inv_r (s t u : string) : s +:+ u = t +:+ u → s = t.
Proof.
  revert t. induction s as [|c s IH]; intros [|c' t] Heq.
  - done.
  - apply (f_equal String.length) in Heq.
    rewrite !string_app_length in Heq. cbn in Heq. lia.
  - apply (f_equal String.length) in Heq.
    rewrite !string_app_length in Heq. cbn in Heq. lia.
  - rewrite !string_app_cons in Heq. injection Heq as -> Heq.
    by rewrite (IH t Heq).
Qed.

Lemma intstr_inj (a b : Z) : intstr a = intstr b → a = b.
Proof.
  intros Heq. apply DecimalZ.to_int_inj.
  pose proof (int_of_string_intstr a) as Ha.
  pose proof (int_of_string_intstr b) as Hb.
  rewrite Heq in Ha. congruence.
Qed.

(** X1.  [format_price] writes the sign of the price, then its digits in a
    first group of one to three and further groups of exactly three, one
    space in front of each of these, then the currency text. *)
Theorem format_price_groups (price : Z) :
  ∃ first rest,
    format_price price
    = sign_of price +:+ first +:+ with_sep " " rest +:+ " Kƒç" ∧
    intstr price = sign_of price +:+ first +:+ joined rest ∧
    (1 ≤ String.length first ≤ 3)%nat ∧
    Forall (λ group, String.length group = 3%nat) rest.
Proof.
  destruct (format_price_parts price)
    as (first & rest & Hformat & _ & Hdigits & Hfirst & Hrest).
  exists first, rest. split_and!; [exact Hformat|exact Hdigits|lia..|done].
Qed.

(** Taking the spaces out of a formatted price gives the decimal text of
    the price in front of the currency. *)
Lemma format_price_remove_spaces (price : Z) :
  remove " " (format_price price) = intstr price +:+ "Kƒç".
Proof.
  destruct (format_price_parts price)
    as (first & rest & -> & Hremove & -> & _ & _).
  rewrite <-(string_app_assoc first), remove_app.
  rewrite (remove_app _ (first +:+ with_sep " " rest)), Hremove.
  rewrite !string_app_assoc. f_equal. unfold sign_of.
  by case_decide.
Qed.

(** X2.  Two prices that [format_price] writes alike are the same price:
    the text shown for a price determines the price, digits and sign. *)
Theorem format_price_inj (price other : Z) :
  format_price price = format_price other → price = other.
Proof.
  intros Heq. apply intstr_inj, (string_app_inv_r _ _ "Kƒç").
  by rewrite <-!format_price_remove_spaces, Heq.
Qed.

Lemma format_price_inj_witness :
  format_price 4948302 = format_price (4948300 + 2) ∧
  4948302%Z = (4948300 + 2)%Z.
Proof.
  assert (format_price 4948302 = format_price (4948300 + 2)) as Heq
    by (vm_compute; reflexivity).
  split; [done|]. by apply (format_price_inj 4948302 (4948300 + 2)).
Defined.

(** * [fetch_properties] *)

Lemma build_listing_Some w tick item prop :
  build_listing w tick item = Some prop →
  ∃ hash_id, e_hash_id item = Some hash_id ∧ id prop = intstr hash_id.
Proof.
  unfold build_listing.
  destruct (e_hash_id item) as [hash_id|]; [|done].
  destruct (e_seo_locality item); [|done].
  intros [= <-]. by exists hash_id.
Qed.

Lemma build_listing_well_formed w tick item :
  is_Some (build_listing w tick item) ↔ well_formed item.
Proof.
  unfold build_listing, well_formed.
  destruct (e_hash_id item), (e_seo_locality item); split;
    try (intros [? [=]]); try (intros [[? [=]] [? [=]]]); eauto.
Qed.

Lemma build_listing_agree w w' tick item :
  (∀ tick, details w' tick = details w tick) →
  (∀ tick, now w' tick = now w tick) →
  build_listing w' tick item = build_listing w tick item.
Proof. intros Hd Hn. unfold build_listing. by rewrite Hd, Hn. Qed.

Lemma process_items_agree w w' estates all_properties tick :
  (∀ tick, details w' tick = details w tick) →
  (∀ tick, now w' tick = now w tick) →
  process_items w' estates all_properties tick
  = process_items w estates all_properties tick.
Proof.
  intros Hd Hn. revert all_properties tick.
  induction estates as [|item estates IH]; intros all_properties tick; [done|].
  cbn [process_items]. rewrite (build_listing_agree w w') by done.
  destruct (build_listing w tick item); [apply IH | done].
Qed.

Lemma process_items_completed w estates all_properties tick :
  (process_items w estates all_properties tick).2 = true ↔
  Forall well_formed estates.
Proof.
  revert all_properties tick.
  induction estates as [|item estates IH]; intros all_properties tick.
  - cbn. split; [constructor | done].
  - cbn [process_items]. rewrite Forall_cons, <- (build_listing_well_formed w tick).
    destruct (build_listing w tick item) as [prop|].
    + rewrite IH. split; [intros; split; [by eexists | done] | by intros [_ ?]].
    + cbn. split; [done | intros [[? [=]] _]].
Qed.

Lemma process_items_keyed w estates all_properties tick :
  keyed_by_id all_properties →
  keyed_by_id (process_items w estates all_properties tick).1.1.
Proof.
  revert all_properties tick.
  induction estates as [|item estates IH]; intros all_properties tick Hk;
    [done|].
  cbn [process_items].
  destruct (build_listing w tick item) as [prop|]; [|done].
  apply IH. by apply map_Forall_insert_2.
Qed.

Lemma fetch_pages_S w fuel page all_properties tick :
  fetch_pages w (S fuel) page all_properties tick =
  match api w page with
  | None => Some all_properties
  | Some [] => Some all_properties
  | Some estates =>
      let '(all_properties, tick, completed) :=
        process_items w estates all_properties tick in
      if completed then
        if decide (length estates < per_page)%nat
        then Some all_properties
        else fetch_pages w fuel (S page) all_properties tick
      else Some all_properties
  end.
Proof. done. Qed.

Lemma fetch_pages_keyed w fuel page all_properties tick data :
  keyed_by_id all_properties →
  fetch_pages w fuel page all_properties tick = Some data →
  keyed_by_id data.
Proof.
  revert page all_properties tick.
  induction fuel as [|fuel IH]; intros page all_properties tick Hk; [done|].
  rewrite fetch_pages_S.
  destruct (api w page) as [[|item estates]|]; try by intros [= <-].
  pose proof (process_items_keyed w (item :: estates) _ tick Hk) as Hk'.
  destruct (process_items w (item :: estates) all_properties tick)
    as [[all_properties' tick'] completed].
  destruct completed; [|by intros [= <-]].
  case_decide; [by intros [= <-]|]. by apply IH.
Qed.

(** A page that ends the loop is the last one requested. *)
Lemma ends_fetch_completed w page estates all_properties tick :
  ends_fetch w page →
  api w page = Some estates →
  (process_items w estates all_properties tick).2 = true →
  (length estates < per_page)%nat.
Proof.
  unfold ends_fetch. intros Hend Hapi Hc. rewrite Hapi in Hend.
  apply process_items_completed in Hc. by destruct Hend.
Qed.

Lemma fetch_pages_stops w n fuel page all_properties tick :
  (page ≤ n)%nat → (n - page < fuel)%nat → ends_fetch w n →
  ∃ data,
    fetch_pages w fuel page all_properties tick = Some data ∧
    ∀ w' fuel', agree_to n w w' → (n - page < fuel')%nat →
      fetch_pages w' fuel' page all_properties tick = Some data.
Proof.
  intros Hpage Hfuel Hend. revert page all_properties tick Hpage Hfuel.
  induction fuel as [|fuel IH]; intros page all_properties tick Hpage Hfuel;
    [lia|].
  rewrite fetch_pages_S.
  destruct (api w page) as [estates|] eqn:Hapi.
  2:{ exists all_properties. split; [done|].
      intros w' [|fuel'] (Ha & _ & _) ?; [lia|].
      by rewrite fetch_pages_S, Ha, Hapi by done. }
  destruct estates as [|item estates].
  { exists all_properties. split; [done|].
    intros w' [|fuel'] (Ha & _ & _) ?; [lia|].
    by rewrite fetch_pages_S, Ha, Hapi by done. }
  pose proof (ends_fetch_completed w page (item :: estates) all_properties tick)
    as Hlast.
  destruct (process_items w (item :: estates) all_properties tick)
    as [[all_properties' tick'] completed] eqn:Hitems.
  destruct completed.
  - destruct (decide (length (item :: estates) < per_page)%nat) as [Hshort|Hfull].
    + exists all_properties'. split; [done|].
      intros w' [|fuel'] (Ha & Hd & Hn) ?; [lia|].
      rewrite fetch_pages_S, Ha, Hapi by done.
      rewrite (process_items_agree w w'), Hitems by done.
      by rewrite decide_True.
    + assert (page ≠ n) by (intros ->; by apply Hfull, Hlast).
      destruct (IH (S page) all_properties' tick') as (data & Hdata & Hsame);
        [lia..|].
      exists data. split; [done|].
      intros w' [|fuel'] Hagree ?; [lia|].
      pose proof Hagree as (Ha & Hd & Hn).
      rewrite fetch_pages_S, Ha, Hapi by done.
      rewrite (process_items_agree w w'), Hitems by done.
      rewrite decide_False by done. apply Hsame; [done | lia].
  - exists all_properties'. split; [done|].
    intros w' [|fuel'] (Ha & Hd & Hn) ?; [lia|].
    rewrite fetch_pages_S, Ha, Hapi by done.
    by rewrite (process_items_agree w w'), Hitems.
Qed.

(** X3.  The paging loop ends at the latest with the first page whose
    request fails, that is shorter than a full page or that holds an
    estate without its keys: with a request budget that reaches this page
    [fetch_properties] returns, and its result depends neither on the
    pages after it nor on a larger budget. *)
Theorem fetch_stops_at_last_page (w : World) (n fuel : nat) :
  (1 ≤ n ≤ fuel)%nat →
  ends_fetch w n →
  ∃ data,
    fetch_properties w fuel = Some data ∧
    ∀ w' fuel', agree_to n w w' → (n ≤ fuel')%nat →
      fetch_properties w' fuel' = Some data.
Proof.
  intros Hn Hend. unfold fetch_properties.
  destruct (fetch_pages_stops w n fuel 1 ∅ 0) as (data & Hdata & Hsame);
    [lia..|done|].
  exists data. split; [done|].
  intros w' fuel' Hagree ?. apply Hsame; [done | lia].
Qed.

Lemma fetch_stops_at_last_page_witness :
  (1 ≤ 2 ≤ 2)%nat ∧ ends_fetch world_sample 2 ∧
  ∃ data,
    fetch_properties world_sample 2 = Some data ∧
    ∀ w' fuel', agree_to 2 world_sample w' → (2 ≤ fuel')%nat →
      fetch_properties w' fuel' = Some data.
Proof.
  assert (ends_fetch world_sample 2) as Hend by by_evaluation.
  split_and!; [lia | lia | done |].
  apply (fetch_stops_at_last_page world_sample 2 2); [lia | done].
Defined.

Lemma process_items_lookup w estates all_properties tick k prop :
  (process_items w estates all_properties tick).1.1 !! k = Some prop →
  all_properties !! k = Some prop ∨ Exists (has_id k) estates.
Proof.
  revert all_properties tick.
  induction estates as [|item estates IH]; intros all_properties tick;
    [by left|].
  cbn [process_items].
  destruct (build_listing w tick item) as [new|] eqn:Hnew; [|by left].
  intros [Hk|Hk]%IH; [|by right; right].
  apply lookup_insert_Some in Hk as [[<- <-]|[_ Hk]]; [|by left].
  right; left. apply build_listing_Some in Hnew as (hash_id & Hid & ->).
  unfold has_id. by rewrite Hid.
Qed.

Lemma fetch_pages_lookup w n fuel page all_properties tick data k prop :
  ends_fetch w n → (page ≤ n)%nat →
  fetch_pages w fuel page all_properties tick = Some data →
  data !! k = Some prop →
  all_properties !! k = Some prop ∨
  ∃ p, (page ≤ p ≤ n)%nat ∧ Exists (has_id k) (default [] (api w p)).
Proof.
  intros Hend. revert page all_properties tick.
  induction fuel as [|fuel IH]; intros page all_properties tick Hpage; [done|].
  rewrite fetch_pages_S.
  destruct (api w page) as [estates|] eqn:Hapi; [|intros [= <-]; by left].
  destruct estates as [|item estates]; [intros [= <-]; by left|].
  pose proof (ends_fetch_completed w page (item :: estates) all_properties tick)
    as Hlast.
  pose proof (process_items_lookup w (item :: estates) all_properties tick k prop)
    as Hitems.
  destruct (process_items w (item :: estates) all_properties tick)
    as [[all_properties' tick'] completed].
  assert (all_properties' !! k = Some prop →
          all_properties !! k = Some prop ∨
          ∃ p, (page ≤ p ≤ n)%nat ∧ Exists (has_id k) (default [] (api w p)))
    as Hhere.
  { intros [?|?]%Hitems; [by left|]. right. exists page.
    split; [lia|]. by rewrite Hapi. }
  destruct completed; [|by intros [= <-]].
  case_decide as Hfull; [by intros [= <-]|].
  assert (page ≠ n) by (intros ->; by apply Hfull, Hlast).
  intros Hdata Hk.
  destruct (IH (S page) all_properties' tick') as [?|(p & ? & ?)];
    [lia | done | done | by apply Hhere |].
  right. exists p. split; [lia | done].
Qed.

Lemma fetch_properties_listed w n fuel data k prop :
  (1 ≤ n)%nat → ends_fetch w n →
  fetch_properties w fuel = Some data →
  data !! k = Some prop →
  listed w n k.
Proof.
  intros Hn Hend Hdata Hk. unfold fetch_properties in Hdata.
  destruct (fetch_pages_lookup w n fuel 1 ∅ 0 data k prop)
    as [?|(p & Hp & Hin)]; [done..|done|].
  apply Exists_exists. exists p. split; [|done].
  apply elem_of_seq. lia.
Qed.

(** X4.  Every entry of the fetched dictionary sits under its own id, and
    this id is the [hash_id] of an estate on a page up to the one that
    ended the loop: nothing of the pages after it is in the result. *)
Theorem fetched_listings_are_listed (w : World) (n fuel : nat)
    (data : Snapshot) (k : string) (prop : Listing) :
  (1 ≤ n)%nat → ends_fetch w n →
  fetch_properties w fuel = Some data →
  data !! k = Some prop →
  id prop = k ∧ listed w n k.
Proof.
  intros Hn Hend Hdata Hk. split.
  - by apply (fetch_pages_keyed w fuel 1 ∅ 0 data (map_Forall_empty _) Hdata).
  - by apply (fetch_properties_listed w n fuel data k prop).
Qed.

Lemma fetched_listings_are_listed_witness :
  (1 ≤ 2)%nat ∧ ends_fetch world_sample 2 ∧
  fetch_properties world_sample 2 = Some fetched_sample ∧
  fetched_sample !! "100" = Some listing_100_sample ∧
  id listing_100_sample = "100" ∧ listed world_sample 2 "100".
Proof.
  assert (ends_fetch world_sample 2) as Hend by by_evaluation.
  assert (fetch_properties world_sample 2 = Some fetched_sample) as Hdata
    by (vm_compute; reflexivity).
  assert (fetched_sample !! "100" = Some listing_100_sample) as Hk
    by (vm_compute; reflexivity).
  split_and!; [lia | done | done | done | |];
    apply (fetched_listings_are_listed world_sample 2 2 fetched_sample "100"
             listing_100_sample); (lia || done).
Defined.

(** X5.  A stored listing whose id is on none of the pages up to the one
    that ended the loop is reported as removed by the detection pass that
    a non-empty fetch is handed to, whatever the pages after it hold: a
    request that fails on a later page makes the listings of the
    remaining pages count as removed.  (An empty fetch does not reach the
    detection pass.) *)
Theorem unfetched_listing_reported_removed (w : World) (n fuel : nat)
    (data previous_data : Snapshot) (history : History)
    (k : string) (old : Listing) :
  (1 ≤ n)%nat → ends_fetch w n →
  fetch_properties w fuel = Some data →
  data ≠ ∅ →
  previous_data !! k = Some old →
  ¬ listed w n k →
  old ∈ removed_properties (detect previous_data data history).1.
Proof.
  intros Hn Hend Hdata _ Hold Hk.
  apply elem_of_removed_properties. exists k. split; [done|].
  destruct (data !! k) as [prop|] eqn:Hprop; [|done].
  destruct Hk. by apply (fetch_properties_listed w n fuel data k prop).
Qed.

Lemma unfetched_listing_reported_removed_witness :
  (1 ≤ 2)%nat ∧ ends_fetch world_sample 2 ∧
  fetch_properties world_sample 2 = Some fetched_sample ∧
  fetched_sample ≠ ∅ ∧
  ({[ "777" := listing "777" 10 "t0" ]} : Snapshot) !! "777"
    = Some (listing "777" 10 "t0") ∧
  ¬ listed world_sample 2 "777" ∧
  listing "777" 10 "t0"
    ∈ removed_properties
        (detect {[ "777" := listing "777" 10 "t0" ]} fetched_sample ∅).1.
Proof.
  assert (ends_fetch world_sample 2) as Hend by by_evaluation.
  assert (fetch_properties world_sample 2 = Some fetched_sample) as Hdata
    by (vm_compute; reflexivity).
  assert (fetched_sample ≠ ∅) as Hne by by_evaluation.
  assert (¬ listed world_sample 2 "777") as Hk by by_evaluation.
  split_and!; [lia | done | done | done | done | done |].
  apply (unfetched_listing_reported_removed world_sample 2 2 fetched_sample
           {[ "777" := listing "777" 10 "t0" ]} ∅ "777"); (lia || done).
Defined.

Lemma process_items_mono w estates all_properties tick k :
  is_Some (all_properties !! k) →
  is_Some ((process_items w estates all_properties tick).1.1 !! k).
Proof.
  revert all_properties tick.
  induction estates as [|item estates IH]; intros all_properties tick Hk;
    [done|].
  cbn [process_items].
  destruct (build_listing w tick item) as [new|]; [|done].
  apply IH. rewrite lookup_insert_is_Some. destruct (decide (id new = k)); auto.
Qed.

Lemma fetch_pages_mono w fuel page all_properties tick data k :
  fetch_pages w fuel page all_properties tick = Some data →
  is_Some (all_properties !! k) → is_Some (data !! k).
Proof.
  revert page all_properties tick.
  induction fuel as [|fuel IH]; intros page all_properties tick; [done|].
  rewrite fetch_pages_S.
  destruct (api w page) as [[|item estates]|]; try by intros [= <-].
  pose proof (process_items_mono w (item :: estates) all_properties tick k)
    as Hitems.
  destruct (process_items w (item :: estates) all_properties tick)
    as [[all_properties' tick'] completed].
  destruct completed; [|intros [= <-]; done].
  case_decide; [intros [= <-]; done|].
  intros Hdata Hk. eapply IH; eauto.
Qed.

(** X6.  The fetch is empty exactly when the first request fails, when its
    page holds no estate or when the first estate of the page lacks a key
    that the loop reads: in every other case the listings built before the
    loop ended are returned, an error on the way being printed only. *)
Theorem fetch_empty_iff (w : World) (fuel : nat) (data : Snapshot) :
  fetch_properties w fuel = Some data →
  data = ∅ ↔ nothing_listed w.
Proof.
  unfold fetch_properties, nothing_listed.
  destruct fuel as [|fuel]; [done|]. rewrite fetch_pages_S.
  destruct (api w 1) as [[|item estates]|]; try by intros [= <-].
  rewrite <- (build_listing_well_formed w 0). cbn [process_items].
  destruct (build_listing w 0 item) as [new|] eqn:Hnew.
  - intros Hdata. split; [|by intros []].
    intros ->. exfalso.
    assert (is_Some ((∅ : Snapshot) !! id new)) as [? Hk]; [|done].
    pose proof (process_items_mono w estates (<[id new := new]> ∅) 1 (id new))
      as Hitems.
    destruct (process_items w estates (<[id new := new]> ∅) 1)
      as [[all_properties' tick'] completed].
    assert (is_Some (all_properties' !! id new)) as Hin
      by (apply Hitems; by rewrite lookup_insert_eq).
    destruct completed; [|by simplify_eq].
    case_decide; [by simplify_eq|].
    by eapply fetch_pages_mono.
  - intros [= <-]. split; [|done]. by intros _ [? [=]].
Qed.

Lemma fetch_empty_iff_witness :
  fetch_properties world_sample 2 = Some fetched_sample ∧
  (fetched_sample = ∅ ↔ nothing_listed world_sample).
Proof.
  assert (fetch_properties world_sample 2 = Some fetched_sample) as Hdata
    by (vm_compute; reflexivity).
  split; [done|]. by apply (fetch_empty_iff world_sample 2).
Defined.


(** * [download_image] *)



Lemma download_image_cached (fs : FileSystem) (get : string → option string)
    (room : option nat) (a : ascii) (image_url property_id : string) :
  is_Some (fs !! image_path_of property_id) →
  download_image fs get room (Some (String a image_url)) property_id
  = (fs, Some (image_path_of property_id)).
Proof. intros Hfile. unfold download_image. by rewrite decide_True. Qed.




(** X8.  A download whose write is cut short returns no path, yet it
    leaves the part that was written in the file of the id; from then on
    every call for the id returns that file without a request, so the
    cut image is never replaced. *)
Theorem cut_image_is_kept (fs : FileSystem)
    (get get' : string → option string) (n : nat) (room' : option nat)
    (a a' : ascii) (image_url image_url' property_id content : string) :
  fs !! image_path_of property_id = None →
  get (String a image_url) = Some content →
  (n < String.length content)%nat →
  let fs' := <[image_path_of property_id := substring 0 n content]> fs in
  download_image fs get (Some n) (Some (String a image_url)) property_id
  = (fs', None) ∧
  download_image fs' get' room' (Some (String a' image_url')) property_id
  = (fs', Some (image_path_of property_id)).
Proof.
  intros Hfile Hget Hn fs'. split.
  - unfold download_image. rewrite decide_False by (rewrite Hfile; by intros [? ?]).
    rewrite Hget. unfold write_to. by rewrite decide_True.
  - apply download_image_cached. subst fs'. by rewrite lookup_insert_eq.
Qed.

Lemma cut_image_is_kept_witness :
  let get : string → option string := λ url, Some ("image at " +:+ url) in
  (∅ : FileSystem) !! image_path_of "100" = None ∧
  get "https://img.example/1.jpg" = Some "image at https://img.example/1.jpg" ∧
  (5 < String.length "image at https://img.example/1.jpg")%nat ∧
  download_image ∅ get (Some 5) (Some "https://img.example/1.jpg") "100"
  = ({[ "property_images/100.jpg" := "image" ]}, None) ∧
  download_image {[ "property_images/100.jpg" := "image" ]} get None
    (Some "https://img.example/1.jpg") "100"
  = ({[ "property_images/100.jpg" := "image" ]},
     Some "property_images/100.jpg").
Proof.
  intros get.
  assert ((∅ : FileSystem) !! image_path_of "100" = None) as Hfile by done.
  assert (get "https://img.example/1.jpg"
          = Some "image at https://img.example/1.jpg") as Hget by done.
  assert (5 < String.length "image at https://img.example/1.jpg")%nat as Hn
    by (cbn; lia).
  split_and!; [done..| |];
    apply (cut_image_is_kept ∅ get get 5 None "h" "h"
             "ttps://img.example/1.jpg" "ttps://img.example/1.jpg" "100"
             "image at https://img.example/1.jpg" Hfile Hget Hn).
Defined.

(** * [upload_to_github] *)

Lemma run_commands_cwd (g : Git) (cmds : list (list string)) (sh : Shell) :
  cwd (run_commands g cmds sh).1 = cwd sh.
Proof.
  revert sh. induction cmds as [|cmd cmds IH]; intros sh; [done|].
  cbn [run_commands]. destruct (run g cmd) as [result|]; [|done].
  case_decide; [destruct (_ || _)|]; [done|by rewrite IH..].
Qed.

(** The commands that ran are the first ones of the list, in its order. *)
Lemma run_commands_ran (g : Git) (cmds : list (list string)) (sh : Shell) :
  ∃ done, ran (run_commands g cmds sh).1 = ran sh ++ done ∧
          done `prefix_of` cmds.
Proof.
  revert sh. induction cmds as [|cmd cmds IH]; intros sh.
  { exists []. by rewrite app_nil_r. }
  cbn [run_commands]. destruct (run g cmd) as [result|].
  2:{ exists []. rewrite app_nil_r. split; [done | apply prefix_nil]. }
  assert (∀ sh', ran sh' = ran sh ++ [cmd] →
            ∃ done, ran (run_commands g cmds sh').1 = ran sh ++ done ∧
                    done `prefix_of` cmd :: cmds) as Hrest.
  { intros sh' Hsh'. destruct (IH sh') as (done & Hran & Hpre).
    exists (cmd :: done). rewrite Hran, Hsh', <- app_assoc.
    split; [done | by apply prefix_cons]. }
  case_decide; [destruct (_ || _)|]; [|by apply Hrest..].
  exists [cmd]. split; [done|]. apply prefix_cons, prefix_nil.
Qed.

(** X9.  Whatever the commands do, the upload ends in the directory it
    was started in, so the data files, which are opened by relative
    names, stay the ones of that directory; and the commands it has run
    are the first ones of add, commit and push, in this order. *)
Theorem upload_returns_to_directory (enable_github_upload : bool)
    (github_repo_path : option string) (stamp : string) (g : Git)
    (sh : Shell) :
  let sh' := upload_to_github enable_github_upload github_repo_path stamp
               g sh in
  cwd sh' = cwd sh ∧
  ∃ done, ran sh' = ran sh ++ done ∧ done `prefix_of` commands stamp.
Proof.
  cbn zeta. unfold upload_to_github.
  assert (∃ done, ran sh = ran sh ++ done ∧ done `prefix_of` commands stamp)
    as Hnone.
  { exists []. rewrite app_nil_r. split; [done | apply prefix_nil]. }
  destruct (negb _ || negb _); [done|].
  destruct (chdir g _); [|done].
  pose proof (run_commands_ran g (commands stamp)
                (set_cwd (default "" github_repo_path) (print Uploading sh)))
    as Hran.
  destruct (run_commands g (commands stamp) _) as [sh' []]; done.
Qed.

(** Commands that return and do not say 'nothing to commit'. *)
Lemma run_commands_all (g : Git) (cmds : list (list string)) (sh : Shell) :
  Forall (λ cmd, ∃ result, run g cmd = Some result ∧
            contains "nothing to commit" (stdout result) = false ∧
            contains "nothing to commit" (stderr result) = false) cmds →
  (run_commands g cmds sh).2 = AllRun ∧
  ran (run_commands g cmds sh).1 = ran sh ++ cmds ∧
  (∀ line, line ∈ printed sh → line ∈ printed (run_commands g cmds sh).1) ∧
  (∀ cmd result, cmd ∈ cmds → run g cmd = Some result →
     (returncode result ≠ 0)%Z →
     CommandFailed cmd (stderr result) ∈ printed (run_commands g cmds sh).1).
Proof.
  revert sh. induction cmds as [|cmd cmds IH]; intros sh Hall.
  { cbn. rewrite app_nil_r. split_and!; [done..|]. by intros ?? ?%elem_of_nil. }
  apply Forall_cons in Hall as [(result & Hcmd & Hout & Herr) Hall].
  cbn [run_commands]. rewrite Hcmd, Hout, Herr. cbn [orb].
  case_decide as Hcode.
  - destruct (IH (print (CommandFailed cmd (stderr result))
                    (record_run cmd sh)) Hall) as (-> & -> & Hkeep & Hfail).
    cbn [ran print record_run]. rewrite <- app_assoc.
    split_and!; [done..| |].
    + intros line Hline. apply Hkeep. cbn. apply elem_of_app. by left.
    + intros cmd' result' [->|Hin]%elem_of_cons Hcmd' Hcode'.
      * apply Hkeep. cbn. apply elem_of_app. right.
        rewrite Hcmd in Hcmd'. injection Hcmd' as <-.
        by apply list_elem_of_singleton.
      * by apply Hfail.
  - destruct (IH (record_run cmd sh) Hall) as (-> & -> & Hkeep & Hfail).
    cbn [ran record_run]. rewrite <- app_assoc.
    split_and!; [done..|].
    intros cmd' result' [->|Hin]%elem_of_cons Hcmd' Hcode'.
    + rewrite Hcmd in Hcmd'. by injection Hcmd' as <-.
    + by apply Hfail.
Qed.

(** X10.  When the three commands return and none of them says 'nothing to
    commit', all three are run and the success line is printed last,
    whatever their return codes are: a push that failed is reported as
    an upload that succeeded, after the line about the failed command. *)
Theorem upload_reports_success_despite_failures (stamp path : string)
    (c : ascii) (g : Git) (sh : Shell) :
  chdir g (String c path) = true →
  Forall (λ cmd, ∃ result, run g cmd = Some result ∧
            contains "nothing to commit" (stdout result) = false ∧
            contains "nothing to commit" (stderr result) = false)
         (commands stamp) →
  let sh' := upload_to_github true (Some (String c path)) stamp g sh in
  ran sh' = ran sh ++ commands stamp ∧
  last (printed sh') = Some Uploaded ∧
  (∀ result, run g ["git"; "push"] = Some result →
     (returncode result ≠ 0)%Z →
     CommandFailed ["git"; "push"] (stderr result) ∈ printed sh').
Proof.
  intros Hdir Hrun. cbn zeta. unfold upload_to_github.
  cbn [negb orb is_set default from_option Datatypes.id]. rewrite Hdir.
  destruct (run_commands_all g (commands stamp)
              (set_cwd (String c path) (print Uploading sh)) Hrun)
    as (Hend & Hran & _ & Hfail).
  destruct (run_commands g (commands stamp) _) as [sh' ending].
  cbn [fst snd] in *. subst ending. cbn [ran set_cwd print printed].
  split_and!; [done|by rewrite last_snoc|].
  intros result Hpush Hcode. apply elem_of_app. left.
  apply Hfail; [|done..]. unfold commands. rewrite !elem_of_cons. auto.
Qed.

Lemma upload_reports_success_despite_failures_witness :
  let g := git_sample in
  let sh := mkShell "/home/tracker" [] [] in
  chdir g "repo" = true ∧
  Forall (λ cmd, ∃ result, run g cmd = Some result ∧
            contains "nothing to commit" (stdout result) = false ∧
            contains "nothing to commit" (stderr result) = false)
         (commands "2024-05-01 06:00") ∧
  upload_to_github true (Some "repo") "2024-05-01 06:00" g sh
  = mkShell "/home/tracker" (commands "2024-05-01 06:00")
            [Uploading;
             CommandFailed ["git"; "push"] "fatal: unable to access";
             Uploaded] ∧
  last (printed (upload_to_github true (Some "repo") "2024-05-01 06:00" g sh))
  = Some Uploaded.
Proof.
  intros g sh.
  assert (chdir g "repo" = true) as Hdir by done.
  assert (Forall (λ cmd, ∃ result, run g cmd = Some result ∧
            contains "nothing to commit" (stdout result) = false ∧
            contains "nothing to commit" (stderr result) = false)
         (commands "2024-05-01 06:00")) as Hrun.
  { repeat constructor; eexists; (split; [vm_compute; reflexivity|]);
      split; vm_compute; reflexivity. }
  split_and!; [done | done | vm_compute; reflexivity |].
  apply (upload_reports_success_despite_failures "2024-05-01 06:00" "epo"
           "r" g sh Hdir Hrun).
Defined.

(** X11.  When the commit fails and says 'nothing to commit' (the add
    before it having passed), the upload returns at once: the push is not
    run and no success line is printed. *)
Theorem nothing_to_commit_skips_push (stamp path : string) (c : ascii)
    (g : Git) (sh : Shell) (added committed : Completed) :
  chdir g (String c path) = true →
  run g ["git"; "add"; "."] = Some added →
  returncode added = 0%Z →
  run g ["git"; "commit"; "-m"; "Update property data - " +:+ stamp]
    = Some committed →
  returncode committed ≠ 0%Z →
  contains "nothing to commit" (stdout committed) = true ∨
  contains "nothing to commit" (stderr committed) = true →
  upload_to_github true (Some (String c path)) stamp g sh
  = mkShell (cwd sh)
            (ran sh ++ [ ["git"; "add"; "."];
                         ["git"; "commit"; "-m";
                          "Update property data - " +:+ stamp] ])
            (printed sh ++ [Uploading; NoChanges]).
Proof.
  intros Hdir Hadd Hadded Hcommit Hcommitted Hsays.
  unfold upload_to_github.
  cbn [negb orb is_set default from_option Datatypes.id]. rewrite Hdir.
  unfold commands. cbn [run_commands]. rewrite Hadd, Hcommit.
  rewrite (decide_False (P := (returncode added ≠ 0)%Z))
    by (intros Hne; by apply Hne).
  rewrite (decide_True (P := (returncode committed ≠ 0)%Z)) by done.
  assert (contains "nothing to commit" (stdout committed)
          || contains "nothing to commit" (stderr committed) = true) as ->.
  { apply orb_true_iff. done. }
  unfold set_cwd, print, record_run. cbn [cwd ran printed].
  by rewrite <- !app_assoc.
Qed.

Lemma nothing_to_commit_skips_push_witness :
  let g := git_idle_sample in
  chdir g "repo" = true ∧
  upload_to_github true (Some "repo") "2024-05-01 06:00" g
    (mkShell "/home/tracker" [] [])
  = mkShell "/home/tracker"
            [ ["git"; "add"; "."];
              ["git"; "commit"; "-m";
               "Update property data - 2024-05-01 06:00"] ]
            [Uploading; NoChanges].
Proof.
  intros g. split; [done|].
  apply (nothing_to_commit_skips_push "2024-05-01 06:00" "epo" "r" g
           (mkShell "/home/tracker" [] [])
           (mkCompleted 0 "" "")
           (mkCompleted 1 "nothing to commit, working tree clean" ""));
    [done | done | done | done | done | left; vm_compute; reflexivity].
Defined.


(** * Successive cycles *)

(** X12.  The snapshot a cycle saves is the previous snapshot of the next
    one: after two cycles with non-empty fetches that both returned, the
    second has closed with the differences between the two fetches, the
    snapshot file loads as the second fetch, and the history file as the
    history of both detection passes, one after the other. *)
Theorem second_cycle_compares_with_first (writers writers' : Writers)
    (fs : FileSystem)
    (previous_data first_fetch second_fetch : Snapshot) (history : History)
    (device device' : Device) :
  load_previous_data fs = Ok previous_data →
  load_history fs = Ok history →
  first_fetch ≠ ∅ → second_fetch ≠ ∅ →
  is_Ok (check_and_notify writers fs first_fetch device).2 →
  is_Ok (check_and_notify writers'
           (check_and_notify writers fs first_fetch device).1
           second_fetch device').2 →
  let history' := (detect previous_data first_fetch history).2 in
  let second := check_and_notify writers'
                  (check_and_notify writers fs first_fetch device).1
                  second_fetch device' in
  second.2 = Ok (Found (detect first_fetch second_fetch history').1) ∧
  load_previous_data second.1 = Ok second_fetch ∧
  load_history second.1
  = Ok (detect first_fetch second_fetch history').2.
Proof.
  intros HP HH Hfirst Hsecond Hok Hok' history' second.
  destruct (check_and_notify_files writers fs first_fetch previous_data
              history device HP HH Hok) as [HP' HH'].
  rewrite decide_False in HP' by done. rewrite decide_False in HH' by done.
  fold history' in HH'.
  destruct (check_and_notify_files writers' _ second_fetch first_fetch
              history' device' HP' HH' Hok') as [HP'' HH''].
  rewrite decide_False in HP'' by done. rewrite decide_False in HH'' by done.
  split_and!; [|done..].
  destruct (check_and_notify_outcomes writers' _ second_fetch first_fetch
              history' device' HP' HH' Hsecond)
    as [(e & _ & Hcycle)|[(_ & Hcycle & _)|[_ Hcycle]]];
    [by rewrite Hcycle in Hok'..|].
  subst second. by rewrite Hcycle.
Qed.

Lemma second_cycle_compares_with_first_witness :
  load_previous_data ∅ = Ok ∅ ∧ load_history ∅ = Ok ∅ ∧
  first_fetch_sample ≠ ∅ ∧ second_fetch_sample ≠ ∅ ∧
  is_Ok (check_and_notify writers_sample ∅ first_fetch_sample reliable).2 ∧
  is_Ok (check_and_notify writers_sample stored_sample second_fetch_sample
           reliable).2 ∧
  (check_and_notify writers_sample stored_sample second_fetch_sample
     reliable).2
  = Ok (Found (detect first_fetch_sample second_fetch_sample
                 (detect ∅ first_fetch_sample ∅).2).1) ∧
  load_previous_data
    (check_and_notify writers_sample stored_sample second_fetch_sample
       reliable).1
  = Ok second_fetch_sample.
Proof.
  assert (load_previous_data ∅ = Ok ∅) as HP by done.
  assert (load_history ∅ = Ok ∅) as HH by done.
  assert (first_fetch_sample ≠ ∅) as Hfirst by by_evaluation.
  assert (second_fetch_sample ≠ ∅) as Hsecond by by_evaluation.
  assert (is_Ok (check_and_notify writers_sample ∅ first_fetch_sample
                   reliable).2) as Hok by by_evaluation.
  assert (is_Ok (check_and_notify writers_sample stored_sample
                   second_fetch_sample reliable).2) as Hok'
    by by_evaluation.
  split_and!; [done..| |];
    apply (second_cycle_compares_with_first writers_sample writers_sample
             ∅ ∅ first_fetch_sample second_fetch_sample ∅ reliable reliable
             HP HH Hfirst Hsecond Hok Hok').
Defined.

(** A file that does not load ends the cycle before anything is
    written. *)
Lemma check_and_notify_blocked (writers : Writers) (fs : FileSystem)
    (fetched : Snapshot) (device : Device) :
  load_previous_data fs = Raise JSONDecodeError ∨
  load_history fs = Raise JSONDecodeError →
  (check_and_notify writers fs fetched device).1 = fs ∧
  ¬ is_Ok (check_and_notify writers fs fetched device).2.
Proof.
  intros Hload. unfold check_and_notify.
  destruct (load_previous_data fs) as [previous_data|e]; [|by split; auto].
  destruct (load_history fs) as [history|e]; [|by split; auto].
  by destruct Hload.
Qed.

Lemma run_continuous_blocked (fs : FileSystem)
    (cycles : list (Snapshot * Device * Writers)) :
  load_previous_data fs = Raise JSONDecodeError ∨
  load_history fs = Raise JSONDecodeError →
  run_continuous fs cycles = fs.
Proof.
  intros Hload. unfold run_continuous.
  induction cycles as [|[[fetched device] writers] cycles IH]; [done|].
  cbn [foldl fst snd].
  by destruct (check_and_notify_blocked writers fs fetched device Hload)
    as [-> _].
Qed.

(** X13.  A data file that is not JSON text is never repaired: when
    [json.load] raises its decoding error on the snapshot file or on the
    history file, every cycle of the loop ends in an exception before it
    writes, so after any number of cycles, whatever they fetch, the files
    are what they were. *)
Theorem unreadable_file_blocks_every_cycle (fs : FileSystem)
    (cycles : list (Snapshot * Device * Writers)) :
  load_previous_data fs = Raise JSONDecodeError ∨
  load_history fs = Raise JSONDecodeError →
  run_continuous fs cycles = fs ∧
  Forall (λ cycle,
            (check_and_notify cycle.2 fs cycle.1.1 cycle.1.2).1 = fs ∧
            ¬ is_Ok (check_and_notify cycle.2 fs cycle.1.1 cycle.1.2).2)
         cycles.
Proof.
  intros Hload. split; [by apply run_continuous_blocked|].
  apply Forall_forall. intros [[fetched device] writers] _.
  by apply check_and_notify_blocked.
Qed.

Lemma unreadable_file_blocks_every_cycle_witness :
  let fs : FileSystem := {[ data_file := "{" ]} in
  let cycles := [(first_fetch_sample, reliable, writers_sample);
                 (second_fetch_sample, reliable, writers_sample)] in
  (load_previous_data fs = Raise JSONDecodeError ∨
   load_history fs = Raise JSONDecodeError) ∧
  run_continuous fs cycles = fs.
Proof.
  intros fs cycles.
  assert (load_previous_data fs = Raise JSONDecodeError ∨
          load_history fs = Raise JSONDecodeError) as Hload
    by (left; vm_compute; reflexivity).
  split; [done|].
  by apply (unreadable_file_blocks_every_cycle fs cycles).
Defined.

Lemma dumps_obj_length (pairs : list (string * json)) :
  (0 < String.length (dumps (JObj pairs)))%nat.
Proof.
  unfold dumps. destruct pairs as [|[key first] pairs]; [cbn; lia|].
  cbn [iterencode]. rewrite string_app_length. cbn. lia.
Qed.




(** X15.  When the report writers have returned and the write of the
    snapshot is then taken by no character, the cycle ends in the
    exception with the snapshot file empty and the history file as it
    was; the empty file is not JSON text, so no later cycle of the loop
    writes anything, whatever it fetches and whatever the device then
    takes. *)
Theorem emptied_snapshot_stops_the_tracker (writers : Writers)
    (fs : FileSystem) (previous_data fetched : Snapshot) (history : History)
    (device : Device) (cycles : list (Snapshot * Device * Writers)) :
  load_previous_data fs = Ok previous_data →
  load_history fs = Ok history →
  fetched ≠ ∅ →
  (write_reports writers fs (detect previous_data fetched history).1
     fetched (detect previous_data fetched history).2).2 = Ok () →
  device data_file = Some 0%nat →
  let cycle := check_and_notify writers fs fetched device in
  cycle.2 = Raise OSError ∧
  cycle.1 !! data_file = Some "" ∧
  cycle.1 !! history_file = fs !! history_file ∧
  run_continuous cycle.1 cycles = cycle.1.
Proof.
  intros HP HH Hne Hreports Hdata cycle.
  pose proof (write_reports_data writers fs
                (detect previous_data fetched history).1 fetched
                (detect previous_data fetched history).2) as [_ Hkept].
  assert (∃ fs1, fs1 !! history_file = fs !! history_file ∧
                 cycle = (<[data_file := ""]> fs1, Raise OSError))
    as (fs1 & Hfs1 & ->).
  { subst cycle. unfold check_and_notify.
    rewrite HP, HH, decide_False by done.
    destruct (detect previous_data fetched history) as [d history'].
    cbn [fst snd] in *.
    destruct (write_reports writers fs d fetched history') as [fs1 r].
    cbn [fst snd] in *. subst r. exists fs1. split; [done|].
    rewrite Hdata. unfold save_data.
    rewrite dump_to_fails by apply dumps_obj_length. cbn [fst snd].
    by destruct (dumps _). }
  cbn [fst snd]. split_and!; [done|by rewrite lookup_insert_eq| |].
  - by rewrite lookup_insert_ne.
  - apply run_continuous_blocked. left.
    unfold load_previous_data, read_text. rewrite lookup_insert_eq.
    by vm_compute.
Qed.

Lemma emptied_snapshot_stops_the_tracker_witness :
  let device : Device :=
    λ path, if decide (path = data_file) then Some 0%nat else None in
  let cycles := [(second_fetch_sample, reliable, writers_sample);
                 (first_fetch_sample, reliable, writers_sample)] in
  load_previous_data stored_sample = Ok first_fetch_sample ∧
  load_history stored_sample = Ok ((λ prop, [prop]) <$> first_fetch_sample) ∧
  second_fetch_sample ≠ ∅ ∧
  (write_reports writers_sample stored_sample
     (detect first_fetch_sample second_fetch_sample
        ((λ prop, [prop]) <$> first_fetch_sample)).1
     second_fetch_sample
     (detect first_fetch_sample second_fetch_sample
        ((λ prop, [prop]) <$> first_fetch_sample)).2).2 = Ok () ∧
  device data_file = Some 0%nat ∧
  (check_and_notify writers_sample stored_sample second_fetch_sample
     device).1 !! data_file = Some "" ∧
  run_continuous
    (check_and_notify writers_sample stored_sample second_fetch_sample
       device).1 cycles
  = (check_and_notify writers_sample stored_sample second_fetch_sample
       device).1.
Proof.
  intros device cycles.
  assert (load_previous_data stored_sample = Ok first_fetch_sample) as HP
    by (vm_compute; reflexivity).
  assert (load_history stored_sample
          = Ok ((λ prop, [prop]) <$> first_fetch_sample))
    as HH by (vm_compute; reflexivity).
  assert (second_fetch_sample ≠ ∅) as Hne by by_evaluation.
  assert ((write_reports writers_sample stored_sample
             (detect first_fetch_sample second_fetch_sample
                ((λ prop, [prop]) <$> first_fetch_sample)).1
             second_fetch_sample
             (detect first_fetch_sample second_fetch_sample
                ((λ prop, [prop]) <$> first_fetch_sample)).2).2 = Ok ())
    as Hreports by (vm_compute; reflexivity).
  assert (device data_file = Some 0%nat) as Hdata by done.
  split_and!; [done..| |];
    apply (emptied_snapshot_stops_the_tracker writers_sample stored_sample
             first_fetch_sample second_fetch_sample _ device cycles
             HP HH Hne Hreports Hdata).
Defined.

(** X20.  The reports are written before the data files.  When a report
    writer raises, the cycle ends in its exception with both data files
    as they were, whatever reports had been written by then: the fetch of
    this cycle is not saved, and the next cycle compares with the same
    stored snapshot again. *)
Theorem failed_report_saves_nothing (writers : Writers) (fs : FileSystem)
    (previous_data fetched : Snapshot) (history : History)
    (device : Device) (e : Exn) :
  load_previous_data fs = Ok previous_data →
  load_history fs = Ok history →
  fetched ≠ ∅ →
  (write_reports writers fs (detect previous_data fetched history).1
     fetched (detect previous_data fetched history).2).2 = Raise e →
  let cycle := check_and_notify writers fs fetched device in
  cycle.2 = Raise e ∧
  cycle.1 !! data_file = fs !! data_file ∧
  cycle.1 !! history_file = fs !! history_file ∧
  load_previous_data cycle.1 = Ok previous_data ∧
  load_history cycle.1 = Ok history.
Proof.
  intros HP HH Hne Hreports cycle.
  pose proof (write_reports_data writers fs
                (detect previous_data fetched history).1 fetched
                (detect previous_data fetched history).2) as [Hdata Hhistory].
  destruct (check_and_notify_outcomes writers fs fetched previous_data
              history device HP HH Hne)
    as [(e' & He' & Hcycle)|[(Hok & _)|(Hok & _)]];
    [|by rewrite Hreports in Hok..].
  rewrite Hreports in He'. injection He' as <-.
  subst cycle. rewrite Hcycle. cbn [fst snd].
  split_and!; [done..| |].
  - rewrite <- HP. by apply load_previous_data_lookup.
  - rewrite <- HH. by apply load_history_lookup.
Qed.

Lemma failed_report_saves_nothing_witness :
  load_previous_data files_sample = Ok previous_sample ∧
  load_history files_sample = Ok ((λ prop, [prop]) <$> previous_sample) ∧
  current_sample ≠ ∅ ∧
  (write_reports writers_raising_sample files_sample
     (detect previous_sample current_sample
        ((λ prop, [prop]) <$> previous_sample)).1
     current_sample
     (detect previous_sample current_sample
        ((λ prop, [prop]) <$> previous_sample)).2).2 = Raise ValueError ∧
  (check_and_notify writers_raising_sample files_sample current_sample
     reliable).2 = Raise ValueError ∧
  load_previous_data
    (check_and_notify writers_raising_sample files_sample current_sample
       reliable).1
  = Ok previous_sample.
Proof.
  assert (load_previous_data files_sample = Ok previous_sample) as HP
    by (vm_compute; reflexivity).
  assert (load_history files_sample
          = Ok ((λ prop, [prop]) <$> previous_sample))
    as HH by (vm_compute; reflexivity).
  assert (current_sample ≠ ∅) as Hne by by_evaluation.
  assert ((write_reports writers_raising_sample files_sample
             (detect previous_sample current_sample
                ((λ prop, [prop]) <$> previous_sample)).1
             current_sample
             (detect previous_sample current_sample
                ((λ prop, [prop]) <$> previous_sample)).2).2
          = Raise ValueError)
    as Hreports by (vm_compute; reflexivity).
  split_and!; [done..| |];
    apply (failed_report_saves_nothing writers_raising_sample files_sample
             previous_sample current_sample _ reliable ValueError
             HP HH Hne Hreports).
Defined.

(** * What a cycle reports *)

(** X16.  Only the price is compared.  When the fetched snapshot gives the
    same price to the same ids as the stored one, nothing is reported, no
    new listing, no price change, no removal, whatever else differs in
    the listings (name, locality, area, description, time of the
    fetch). *)
Theorem same_prices_report_nothing (P C : Snapshot) (H : History) :
  price <$> C = price <$> P →
  (detect P C H).1 = mkDiff [] [] [].
Proof.
  intros Hprices.
  assert (∀ k, price <$> C !! k = price <$> P !! k) as Hk.
  { intros k. by rewrite <- !lookup_fmap, Hprices. }
  pose proof (elem_of_new_properties P C H) as Hnew.
  pose proof (elem_of_price_changes P C H) as Hchanges.
  pose proof (elem_of_removed_properties P C H) as Hremoved.
  destruct (detect P C H).1 as [new changes removed].
  cbn [new_properties price_changes removed_properties] in *.
  f_equal; apply elem_of_nil_inv.
  - intros prop (k & HC & HP)%Hnew. specialize (Hk k).
    by rewrite HC, HP in Hk.
  - intros pc (k & prop & old & HC & HP & Hne & _)%Hchanges.
    specialize (Hk k). rewrite HC, HP in Hk. cbn in Hk. congruence.
  - intros prop (k & HP & HC)%Hremoved. specialize (Hk k).
    by rewrite HC, HP in Hk.
Qed.

Lemma same_prices_report_nothing_witness :
  let P : Snapshot := {[ "A" := listing "A" 1000000 "t0" ]} in
  let C : Snapshot := {[ "A" := listing "A" 1000000 "t1" ]} in
  price <$> C = price <$> P ∧ C ≠ P ∧
  (detect P C ∅).1 = mkDiff [] [] [].
Proof.
  intros P C.
  assert (price <$> C = price <$> P) as Hprices by (vm_compute; reflexivity).
  split_and!; [done | by_evaluation |].
  by apply (same_prices_report_nothing P C ∅).
Defined.

Lemma length_filter_map_to_list {A} (m : gmap string A)
    (Q : string * A → Prop) `{!∀ kv, Decision (Q kv)} :
  length (filter Q (map_to_list m)) = size (filter Q m).
Proof.
  rewrite map_filter_alt, map_size_list_to_map; [done|].
  apply NoDup_fmap_fst.
  - intros k x y [_ Hx]%list_elem_of_filter [_ Hy]%list_elem_of_filter.
    exact (map_to_list_unique m k x y Hx Hy).
  - apply NoDup_filter, NoDup_map_to_list.
Qed.

(** Every entry of the current snapshot goes one of three ways. *)
Lemma three_ways (P : Snapshot) (l : list (string * Listing)) :
  (length (filter (λ kv, P !! kv.1 = None) l)
   + length (omap (change_of P) l)
   + length (filter (falls_through P) l) = length l)%nat.
Proof.
  induction l as [|[k prop] l IH]; [done|].
  rewrite !filter_cons. cbn [omap list_omap].
  destruct (decide (P !! (k, prop).1 = None)) as [Hnew|Hnew];
    destruct (change_of P (k, prop)) as [pc|] eqn:Hchange;
    destruct (decide (falls_through P (k, prop))) as [Hsame|Hsame];
    cbn [length]; try lia; exfalso;
    unfold change_of, falls_through in *; cbn [fst snd] in *;
    destruct (P !! k) as [old|]; try done;
    destruct (decide (price old ≠ price prop)) as [?|?%dec_stable]; done.
Qed.

(** X17.  The three numbers of the closing line count ids: the new
    listings are as many as the ids of the fetch that the stored snapshot
    lacks, the removed ones as many as the ids of the stored snapshot
    that the fetch lacks, and new, price-changed and unchanged listings
    together are as many as the fetch holds, so no listing is reported
    twice. *)
Theorem report_counts_ids (P C : Snapshot) (H : History) :
  let d := (detect P C H).1 in
  length (new_properties d) = size (dom C ∖ dom P) ∧
  length (removed_properties d) = size (dom P ∖ dom C) ∧
  (length (new_properties d) + length (price_changes d)
   + size (unchanged_ids P C) = size C)%nat.
Proof.
  assert (∀ A B : Snapshot,
    length (filter (λ kv : string * Listing, B !! kv.1 = None) (map_to_list A))
    = size (dom A ∖ dom B)) as Hdiff.
  { intros A B. rewrite length_filter_map_to_list, <- size_dom. f_equal.
    apply set_eq. intros k.
    rewrite elem_of_difference, !elem_of_dom, <- eq_None_not_Some.
    unfold is_Some. setoid_rewrite map_lookup_filter_Some. cbn [fst].
    split; [intros (prop & ? & ?) | intros [[prop ?] ?]]; eauto. }
  cbn zeta. unfold detect. cbn [fst new_properties price_changes removed_properties].
  rewrite detect_loop_new, detect_loop_changes, removed_loop.
  cbn [ls_new ls_changes app]. rewrite !length_fmap, !Hdiff.
  split_and!; [done..|].
  unfold unchanged_ids. rewrite size_dom, <- length_filter_map_to_list.
  rewrite <- Hdiff, three_ways. apply length_map_to_list.
Qed.


(** * A fetch that fails at once *)

Lemma nothing_listed_empty (w : World) (fuel : nat) (data : Snapshot) :
  nothing_listed w → fetch_properties w fuel = Some data → data = ∅.
Proof.
  unfold fetch_properties, nothing_listed.
  destruct fuel as [|fuel]; [done|]. rewrite fetch_pages_S.
  destruct (api w 1) as [[|item estates]|]; try by intros _ [= <-].
  rewrite <- (build_listing_well_formed w 0). cbn [process_items].
  destruct (build_listing w 0 item) as [new|]; [|by intros _ [= <-]].
  intros []. by eexists.
Qed.

(** X19.  An outage is not taken for a removal of every listing.  When
    the first request fails (or its page is empty, or its first estate
    lacks a key), the cycle that gets this fetch writes no file and
    reports no differences: the stored snapshot and history stay as they
    are. *)
Theorem outage_changes_nothing (w : World) (fuel : nat) (data : Snapshot)
    (writers : Writers) (fs : FileSystem) (device : Device) :
  nothing_listed w →
  fetch_properties w fuel = Some data →
  (check_and_notify writers fs data device).1 = fs ∧
  ∀ d, (check_and_notify writers fs data device).2 ≠ Ok (Found d).
Proof.
  intros Hnone Hdata.
  rewrite (nothing_listed_empty w fuel data Hnone Hdata).
  split; [apply check_and_notify_empty|].
  unfold check_and_notify.
  destruct (load_previous_data fs) as [previous_data|e]; [|done].
  destruct (load_history fs) as [history|e]; [|done].
  by rewrite decide_True.
Qed.

Lemma outage_changes_nothing_witness :
  let w := mkWorld (λ page, None) (λ tick, "") (λ tick, "") in
  nothing_listed w ∧ fetch_properties w 1 = Some ∅ ∧
  (check_and_notify writers_sample files_sample ∅ reliable).1
  = files_sample ∧
  (check_and_notify writers_sample files_sample ∅ reliable).2
  ≠ Ok (Found (mkDiff [] [] (map_to_list previous_sample).*2)).
Proof.
  intros w.
  assert (nothing_listed w) as Hnone by done.
  assert (fetch_properties w 1 = Some ∅) as Hdata by done.
  split_and!; [done..| |];
    apply (outage_changes_nothing w 1 ∅ writers_sample files_sample reliable
             Hnone Hdata).
Defined.
